(** * Shallow embedding of facturx_fr: lifecycle state machine, CDAR codec
      and e-reporting aggregation.

    Sources embedded:
    - models/enums.py            (InvoiceStatus, StatusCategory, CDARRoleCode, ...)
    - lifecycle/manager.py       (TRANSITIONS, STATUS_METADATA, LifecycleManager)
    - pdp/models.py              (LifecycleEvent)
    - lifecycle/cdar.py          (CDARGenerator, CDARParser)
    - ereporting/models.py       (TaxBreakdown, TransactionData, AggregatedTransactionData)
    - ereporting/reporter.py     (EReporter)

    Python dicts whose key order or key set matters are association lists;
    Python exceptions are the [inl] side of a sum type.  A Python [str] is a
    [string] whose 8-bit characters are read as the code points U+0000 to
    U+00FF (Latin-1): texts with a character above U+00FF are outside this
    embedding, and the properties below are about Latin-1 texts. *)

From Stdlib Require Import String Ascii List ZArith Bool Lia DecimalN DecimalPos Permutation.
Import ListNotations.
Open Scope Z_scope.

(* ------------------------------------------------------------------ *)
(** ** Calendar values (datetime.date, datetime.datetime) *)

Module Cal.

Record date := mkdate { year : Z; month : Z; day : Z }.

  (** datetime.datetime: a date plus the time of day, kept as microseconds
      since midnight (time zone and sub-day fields only travel along). *)
Record datetime := mkdatetime { dt_date : date; dt_micros : Z }.

Definition MINYEAR := 1.
Definition MAXYEAR := 9999.

Definition is_leap (y : Z) : bool :=
    (Z.eqb (y mod 4) 0 && negb (Z.eqb (y mod 100) 0)) || Z.eqb (y mod 400) 0.

  (** calendar.monthrange(year, month)[1] *)
Definition days_in_month (y m : Z) : Z :=
    if Z.eqb m 2 then (if is_leap y then 29 else 28)
    else if orb (Z.eqb m 4) (orb (Z.eqb m 6) (orb (Z.eqb m 9) (Z.eqb m 11)))
    then 30 else 31.

Definition valid_date (d : date) : bool :=
    (MINYEAR <=? year d) && (year d <=? MAXYEAR)
    && (1 <=? month d) && (month d <=? 12)
    && (1 <=? day d) && (day d <=? days_in_month (year d) (month d)).

  (** The constructor [date(y, m, d)]: raises ValueError out of range. *)
Definition mk_date (y m d : Z) : option date :=
    let r := mkdate y m d in if valid_date r then Some r else None.

  (** Ordering of dates ([<] on datetime.date). *)
Definition date_ltb (a b : date) : bool :=
    (year a <? year b)
    || ((year a =? year b) && ((month a <? month b)
        || ((month a =? month b) && (day a <? day b)))).

End Cal.

(* ------------------------------------------------------------------ *)
(** ** decimal.Decimal (finite values) under the default context *)

Module Dec.

  (** A finite Decimal: sign bit, integer coefficient, exponent; the value
      is (-1)^sign * coef * 10^exp.  Infinities and NaNs are not modelled
      (the pydantic models reject them). *)
Record decimal := mkdec { sign : bool; coef : N; exp : Z }.

Definition signed (d : decimal) : Z :=
    if sign d then - Z.of_N (coef d) else Z.of_N (coef d).

  (** The coefficient rescaled to an exponent [e <= exp d]. *)
Definition scaled (d : decimal) (e : Z) : Z := signed d * 10 ^ (exp d - e).

  (** Numeric comparison, as [==] and [<] compare Decimals. *)
Definition compare (a b : decimal) : comparison :=
    let e := Z.min (exp a) (exp b) in Z.compare (scaled a e) (scaled b e).

Definition eqb (a b : decimal) : bool :=
    match compare a b with Eq => true | _ => false end.

Definition ltb (a b : decimal) : bool :=
    match compare a b with Lt => true | _ => false end.

  (** [bool(d)] is false exactly for zero (of either sign). *)
Definition truthy (d : decimal) : bool := negb (N.eqb (coef d) 0).

Definition of_Z (z : Z) : decimal := mkdec (z <? 0) (Z.abs_N z) 0.

  (** Precision of the default context. *)
Definition PREC : Z := 28.

Definition ndigits (c : Z) : Z :=
    Z.of_nat (Decimal.nb_digits (N.to_uint (Z.to_N c))).

  (** Exponent limits of the default context and the derived [Etiny]
      and [Etop] of [Context.Etiny()] and [Context.Etop()]. *)
Definition EMAX : Z := 999999.
Definition EMIN : Z := -999999.
Definition ETINY : Z := EMIN - PREC + 1.
Definition ETOP : Z := EMAX - PREC + 1.

  (** [Decimal._fix] on the non-zero value [(-1)^sg * c * 10^e], [c > 0]:
      [None] is the [Overflow] signal, which the default context traps
      (raises [decimal.Overflow]); [Subnormal], [Underflow], [Inexact] and
      [Rounded] are not trapped.  The rounding is [ROUND_HALF_EVEN]
      ([_round_half_even]: an exact half with no kept digit rounds down). *)
Definition fix_nonzero (sg : bool) (c e : Z) : option decimal :=
    let exp_min := ndigits c + e - PREC in
    if ETOP <? exp_min then None else
    let exp_min := Z.max exp_min ETINY in
    if e <? exp_min then
      let digits := ndigits c + e - exp_min in
      let '(c, digits) := if digits <? 0 then (1, 0) else (c, digits) in
      let k := ndigits c - digits in
      let q := c / 10 ^ k in
      let r := c mod 10 ^ k in
      let half := 5 * 10 ^ (k - 1) in
      let coeff := if (half <? r) || ((r =? half) && Z.odd q) then q + 1 else q in
      let '(coeff, exp_min) :=
        if PREC <? ndigits coeff then (coeff / 10, exp_min + 1) else (coeff, exp_min) in
      if ETOP <? exp_min then None else Some (mkdec sg (Z.to_N coeff) exp_min)
    else Some (mkdec sg (Z.to_N c) e).

  (** [Decimal._fix] on a zero: the exponent is clamped to
      [[Etiny, Emax]] ([clamp = 0]). *)
Definition fix_zero (sg : bool) (e : Z) : decimal :=
    mkdec sg 0 (Z.min (Z.max e ETINY) EMAX).

  (** [a + b] ([Decimal.__add__]) under the default context, [None] when
      it raises [decimal.Overflow].  A zero operand: the other one is
      rescaled to [max(min(a.exp, b.exp), other.exp - prec - 1)] and fixed.
      Two zeros: a zero of sign [min] of the signs on the smaller exponent.
      Otherwise the exact sum on the smaller exponent, fixed; an exact
      zero is positive (the rounding is not [ROUND_FLOOR]).  ([_normalize]
      replaces an operand far below the precision of the other by a sticky
      1, which does not change the correctly rounded result computed here
      from the exact sum.) *)
Definition add (a b : decimal) : option decimal :=
    let e := Z.min (exp a) (exp b) in
    if N.eqb (coef a) 0 && N.eqb (coef b) 0 then
      Some (fix_zero (sign a && sign b) e)
    else if N.eqb (coef a) 0 then
      let e := Z.max e (exp b - PREC - 1) in
      fix_nonzero (sign b) (Z.of_N (coef b) * 10 ^ (exp b - e)) e
    else if N.eqb (coef b) 0 then
      let e := Z.max e (exp a - PREC - 1) in
      fix_nonzero (sign a) (Z.of_N (coef a) * 10 ^ (exp a - e)) e
    else
      let s := scaled a e + scaled b e in
      if s =? 0 then Some (fix_zero false e)
      else fix_nonzero (s <? 0) (Z.abs s) e.

  (** [sum(xs, Decimal("0"))]: left to right from [Decimal("0")]; an
      [Overflow] aborts the sum. *)
Definition sum (xs : list decimal) : option decimal :=
    fold_left (fun acc x => match acc with Some s => add s x | None => None end)
      xs (Some (of_Z 0)).

End Dec.

(* ------------------------------------------------------------------ *)
(** ** Enumerations (models/enums.py) *)

Module Enums.

Inductive InvoiceStatus :=
  | DEPOSEE | REJETEE_EMISSION | REFUSEE | REJETEE_RECEPTION | ENCAISSEE
  | EMISE | RECUE | MISE_A_DISPOSITION | PRISE_EN_CHARGE | APPROUVEE
  | PARTIELLEMENT_APPROUVEE | EN_LITIGE | SUSPENDUE | PAIEMENT_TRANSMIS
  | COMPLETEE.

  (** Members in declaration order ([list(InvoiceStatus)]). *)
Definition all_statuses : list InvoiceStatus :=
    [DEPOSEE; REJETEE_EMISSION; REFUSEE; REJETEE_RECEPTION; ENCAISSEE;
     EMISE; RECUE; MISE_A_DISPOSITION; PRISE_EN_CHARGE; APPROUVEE;
     PARTIELLEMENT_APPROUVEE; EN_LITIGE; SUSPENDUE; PAIEMENT_TRANSMIS;
     COMPLETEE].

  (** [InvoiceStatus.value] *)
Definition status_value (s : InvoiceStatus) : string :=
    match s with
    | DEPOSEE => "200" | REJETEE_EMISSION => "209" | REFUSEE => "210"
    | REJETEE_RECEPTION => "212" | ENCAISSEE => "213" | EMISE => "201"
    | RECUE => "202" | MISE_A_DISPOSITION => "203" | PRISE_EN_CHARGE => "204"
    | APPROUVEE => "205" | PARTIELLEMENT_APPROUVEE => "206"
    | EN_LITIGE => "207" | SUSPENDUE => "208" | PAIEMENT_TRANSMIS => "211"
    | COMPLETEE => "214"
    end.

  (** [InvoiceStatus(text)]: lookup by value, ValueError otherwise. *)
Definition status_of_value (v : string) : option InvoiceStatus :=
    find (fun s => String.eqb (status_value s) v) all_statuses.

Definition status_eqb (a b : InvoiceStatus) : bool :=
    String.eqb (status_value a) (status_value b).

Inductive StatusCategory := MANDATORY | RECOMMENDED.

Inductive CDARRoleCode := BUYER | SELLER | FACTOR | PLATFORM | PPF.

Definition all_roles : list CDARRoleCode := [BUYER; SELLER; FACTOR; PLATFORM; PPF].

Definition role_value (r : CDARRoleCode) : string :=
    match r with
    | BUYER => "BY" | SELLER => "SE" | FACTOR => "DL" | PLATFORM => "WK"
    | PPF => "DFH"
    end.

Definition role_of_value (v : string) : option CDARRoleCode :=
    find (fun r => String.eqb (role_value r) v) all_roles.

Inductive OperationCategory := DELIVERY | SERVICE | MIXED.

Inductive VATRegime :=
  | REAL_NORMAL_MONTHLY | REAL_NORMAL_QUARTERLY | SIMPLIFIED_REAL | FRANCHISE.

Inductive EReportingTransactionType := B2C_DOMESTIC | B2B_INTRA_EU | B2B_EXTRA_EU.

End Enums.

(* ------------------------------------------------------------------ *)
(** ** Lifecycle state machine (lifecycle/manager.py, pdp/models.py) *)

Module Lifecycle.
  Import Enums.

  (** Dict lookup on an association list ([d.get(k)]). *)
Fixpoint assoc_get {V : Type} (k : InvoiceStatus) (d : list (InvoiceStatus * V))
    : option V :=
    match d with
    | [] => None
    | (k', v) :: d' => if status_eqb k k' then Some v else assoc_get k d'
    end.

  (** [TRANSITIONS], in the source's key order. *)
Definition TRANSITIONS : list (InvoiceStatus * list InvoiceStatus) :=
    [ (DEPOSEE, [EMISE; REJETEE_EMISSION]);
      (EMISE, [RECUE; REJETEE_RECEPTION]);
      (RECUE, [MISE_A_DISPOSITION; REJETEE_RECEPTION]);
      (MISE_A_DISPOSITION, [PRISE_EN_CHARGE; REJETEE_RECEPTION]);
      (PRISE_EN_CHARGE, [APPROUVEE; PARTIELLEMENT_APPROUVEE; REFUSEE;
                         EN_LITIGE; SUSPENDUE]);
      (APPROUVEE, [PAIEMENT_TRANSMIS; ENCAISSEE]);
      (PARTIELLEMENT_APPROUVEE, [PAIEMENT_TRANSMIS; REFUSEE; EN_LITIGE]);
      (EN_LITIGE, [APPROUVEE; REFUSEE; SUSPENDUE]);
      (SUSPENDUE, [COMPLETEE]);
      (COMPLETEE, [PRISE_EN_CHARGE]);
      (PAIEMENT_TRANSMIS, [ENCAISSEE]);
      (REJETEE_EMISSION, []);
      (REJETEE_RECEPTION, []);
      (REFUSEE, []);
      (ENCAISSEE, []) ].

  (** [StatusInfo] (a NamedTuple; [reason_required] defaults to False). *)
Record StatusInfo := mkStatusInfo
    { category : StatusCategory; default_producer : CDARRoleCode;
      reason_required : bool }.

Definition info (c : StatusCategory) (p : CDARRoleCode) : StatusInfo :=
    mkStatusInfo c p false.

  (** [STATUS_METADATA], in the source's key order. *)
Definition STATUS_METADATA : list (InvoiceStatus * StatusInfo) :=
    [ (DEPOSEE, info MANDATORY PLATFORM);
      (REJETEE_EMISSION, info MANDATORY PLATFORM);
      (REFUSEE, mkStatusInfo MANDATORY BUYER true);
      (REJETEE_RECEPTION, info MANDATORY PLATFORM);
      (ENCAISSEE, info MANDATORY SELLER);
      (EMISE, info RECOMMENDED PLATFORM);
      (RECUE, info RECOMMENDED PLATFORM);
      (MISE_A_DISPOSITION, info RECOMMENDED PLATFORM);
      (PRISE_EN_CHARGE, info RECOMMENDED BUYER);
      (APPROUVEE, info RECOMMENDED BUYER);
      (PARTIELLEMENT_APPROUVEE, info RECOMMENDED BUYER);
      (EN_LITIGE, info RECOMMENDED BUYER);
      (SUSPENDUE, info RECOMMENDED BUYER);
      (PAIEMENT_TRANSMIS, info RECOMMENDED BUYER);
      (COMPLETEE, info RECOMMENDED SELLER) ].

  (** [TERMINAL_STATUSES]: keys of [TRANSITIONS] with an empty target list
      (a frozenset; kept here in iteration order). *)
Definition TERMINAL_STATUSES : list InvoiceStatus :=
    map fst (filter (fun kv => match snd kv with [] => true | _ => false end)
                    TRANSITIONS).

  (** [LifecycleEvent] (pdp/models.py). *)
Record LifecycleEvent := mkEvent
    { ev_timestamp : Cal.datetime;
      ev_status : InvoiceStatus;
      ev_reason : option string;
      ev_reason_code : option string;
      ev_producer : option CDARRoleCode;
      ev_amount : option Dec.decimal;
      ev_cdar_message_id : option string }.

Record LifecycleManager := mkManager
    { invoice_reference : string;
      status : InvoiceStatus;
      history : list LifecycleEvent }.

  (** [LifecycleManager(invoice_reference, initial_status=DEPOSEE)] *)
Definition init (invoice_ref : string) (initial_status : option InvoiceStatus)
    : LifecycleManager :=
    mkManager invoice_ref
      (match initial_status with Some s => s | None => DEPOSEE end) [].

Definition targets_of (s : InvoiceStatus) : list InvoiceStatus :=
    match assoc_get s TRANSITIONS with Some l => l | None => [] end.

Definition can_transition (m : LifecycleManager) (target : InvoiceStatus) : bool :=
    existsb (status_eqb target) (targets_of (status m)).

  (** The two [ValueError]s raised by [transition]. *)
Inductive TransitionError :=
  | InvalidTransition (current target : InvoiceStatus) (allowed : list string)
  | MissingReason (target : InvoiceStatus).

  (** Python truthiness of an optional string: [not reason]. *)
Definition str_missing (s : option string) : bool :=
    match s with None => true | Some v => String.eqb v "" end.

  (** [transition(target, *, reason, reason_code, producer, amount, timestamp)].
      [now] is the value [datetime.now(UTC)] would return.  The result
      pairs the outcome (an exception or the returned event) with the
      manager's state after the call.  [amount] is [None] or a finite
      Decimal: a NaN or infinite amount makes the [LifecycleEvent(...)]
      constructor raise pydantic's [ValidationError] (its [Decimal] field
      does not allow them), a call this embedding leaves out. *)
Definition transition (m : LifecycleManager) (now : Cal.datetime)
      (target : InvoiceStatus) (reason reason_code : option string)
      (producer : option CDARRoleCode) (amount : option Dec.decimal)
      (timestamp : option Cal.datetime)
    : (TransitionError + LifecycleEvent) * LifecycleManager :=
    if negb (can_transition m target) then
      (inl (InvalidTransition (status m) target
              (map status_value (targets_of (status m)))), m)
    else
      let metadata := assoc_get target STATUS_METADATA in
      match metadata with
      | Some md =>
          if reason_required md && str_missing reason
          then (inl (MissingReason target), m)
          else
            let producer' :=
              match producer with None => Some (default_producer md) | p => p end in
            let ts := match timestamp with None => now | Some t => t end in
            let event := mkEvent ts target reason reason_code producer' amount None in
            (inr event, mkManager (invoice_reference m) target (history m ++ [event]))
      | None =>
          let ts := match timestamp with None => now | Some t => t end in
          let event := mkEvent ts target reason reason_code producer amount None in
          (inr event, mkManager (invoice_reference m) target (history m ++ [event]))
      end.

Definition is_terminal (m : LifecycleManager) : bool :=
    existsb (status_eqb (status m)) TERMINAL_STATUSES.

Definition is_mandatory (s : InvoiceStatus) : bool :=
    match assoc_get s STATUS_METADATA with
    | Some md => match category md with MANDATORY => true | RECOMMENDED => false end
    | None => false
    end.

Definition mandatory_events (m : LifecycleManager) : list LifecycleEvent :=
    filter (fun e => is_mandatory (ev_status e)) (history m).

End Lifecycle.

(* ------------------------------------------------------------------ *)
(** ** E-reporting (ereporting/models.py, ereporting/reporter.py) *)

Module EReporting.
  Import Enums.

Record TaxBreakdown := mkTaxBreakdown
    { tb_vat_rate : option Dec.decimal;
      tb_vat_exemption : bool;
      tb_taxable_amount : Dec.decimal;
      tb_vat_amount : Dec.decimal }.

Record TransactionData := mkTransaction
    { transaction_id : string;
      t_seller_siren : string;
      transaction_type : EReportingTransactionType;
      t_period_start : option Cal.date;
      t_period_end : option Cal.date;
      invoice_date : option Cal.date;
      invoice_number : option string;
      t_operation_category : OperationCategory;
      t_total_excl_tax : Dec.decimal;
      t_vat_amount : Dec.decimal;
      t_vat_rate : option Dec.decimal;
      t_vat_exemption : bool;
      tax_due_in_france : option Dec.decimal;
      t_vat_on_debits : bool;
      country_code : option string;
      currency : string }.

Record AggregatedTransactionData := mkAggregated
    { a_seller_siren : string;
      a_period_start : Cal.date;
      a_period_end : Cal.date;
      a_operation_category : OperationCategory;
      tax_breakdowns : list TaxBreakdown;
      a_vat_on_debits : bool }.

  (** Computed fields [total_excl_tax] and [total_vat], evaluated on each
      access; [None] when the sum raises [decimal.Overflow]. *)
Definition total_excl_tax (a : AggregatedTransactionData) : option Dec.decimal :=
    Dec.sum (map tb_taxable_amount (tax_breakdowns a)).

Definition total_vat (a : AggregatedTransactionData) : option Dec.decimal :=
    Dec.sum (map tb_vat_amount (tax_breakdowns a)).

Record EReporter := mkEReporter
    { seller_siren : string; vat_regime : VATRegime }.

  (** The validation messages (formatted strings in the source). *)
Inductive Message :=
  | SirenMismatchAggregate (found expected : string)
  | MixedSirens (sirens : list string).

  (** The exceptions the e-reporting methods raise: the two exception
      classes of ereporting/errors.py, and [decimal.Overflow], raised by a
      Decimal addition whose result exceeds the context's [Emax]. *)
Inductive EReportingError :=
  | EReportingEmptyDeclarationError
  | EReportingValidationError (msg : Message) (errors : list Message)
  | DecimalOverflow.

  (** [validate_aggregated]: the SIREN check appends to [errors], then the
      all-zero check raises.  [and] short-circuits: [total_vat] is only
      computed when [total_excl_tax == 0]; an [Overflow] in either sum
      propagates. *)
Definition validate_aggregated (r : EReporter) (agg : AggregatedTransactionData)
    : EReportingError + list Message :=
    let errors :=
      if negb (String.eqb (a_seller_siren agg) (seller_siren r))
      then [SirenMismatchAggregate (a_seller_siren agg) (seller_siren r)]
      else [] in
    match total_excl_tax agg with
    | None => inl DecimalOverflow
    | Some te =>
        if Dec.eqb te (Dec.of_Z 0) then
          match total_vat agg with
          | None => inl DecimalOverflow
          | Some tv =>
              if Dec.eqb tv (Dec.of_Z 0)
              then inl EReportingEmptyDeclarationError
              else inr errors
          end
        else inr errors
    end.

  (** Keys of the [breakdowns] dict: [(vat_rate, vat_exemption)]; dict keys
      are compared with [==] (numeric on Decimals). *)
Definition key := (option Dec.decimal * bool)%type.

Definition opt_dec_eqb (a b : option Dec.decimal) : bool :=
    match a, b with
    | None, None => true
    | Some x, Some y => Dec.eqb x y
    | _, _ => false
    end.

Definition key_eqb (k1 k2 : key) : bool :=
    opt_dec_eqb (fst k1) (fst k2) && Bool.eqb (snd k1) (snd k2).

  (** [breakdowns.get(key)] *)
Fixpoint bd_get (k : key) (d : list (key * (Dec.decimal * Dec.decimal)))
    : option (Dec.decimal * Dec.decimal) :=
    match d with
    | [] => None
    | (k', v) :: d' => if key_eqb k k' then Some v else bd_get k d'
    end.

  (** [breakdowns[key] = v]: an existing key keeps its position (and its
      original key object); a new key is appended. *)
Fixpoint bd_set (k : key) (v : Dec.decimal * Dec.decimal)
      (d : list (key * (Dec.decimal * Dec.decimal)))
    : list (key * (Dec.decimal * Dec.decimal)) :=
    match d with
    | [] => [(k, v)]
    | (k', v') :: d' => if key_eqb k k' then (k', v) :: d' else (k', v') :: bd_set k v d'
    end.

  (** One iteration of the grouping loop ([existing] is a pair, truthy
      whenever present); [None] when [taxable + txn.total_excl_tax] or then
      [vat + txn.vat_amount] raises [decimal.Overflow]. *)
Definition group_step (d : list (key * (Dec.decimal * Dec.decimal)))
      (txn : TransactionData) : option (list (key * (Dec.decimal * Dec.decimal))) :=
    let k := (t_vat_rate txn, t_vat_exemption txn) in
    match bd_get k d with
    | Some (taxable, vat) =>
        match Dec.add taxable (t_total_excl_tax txn) with
        | None => None
        | Some taxable' =>
            match Dec.add vat (t_vat_amount txn) with
            | None => None
            | Some vat' => Some (bd_set k (taxable', vat') d)
            end
        end
    | None => Some (bd_set k (t_total_excl_tax txn, t_vat_amount txn) d)
    end.

  (** The loop over [transactions]; an [Overflow] aborts it. *)
Definition group (txns : list TransactionData)
    : option (list (key * (Dec.decimal * Dec.decimal))) :=
    fold_left (fun acc t => match acc with Some d => group_step d t | None => None end)
      txns (Some []).

  (** The sort key [(x[0][0] or Decimal("-1"), x[0][1])]. *)
Definition sort_key (k : key) : Dec.decimal * bool :=
    let r := match fst k with
             | Some d => if Dec.truthy d then d else Dec.of_Z (-1)
             | None => Dec.of_Z (-1)
             end in
    (r, snd k).

  (** Tuple comparison [<] on sort keys (False < True). *)
Definition sort_key_ltb (a b : Dec.decimal * bool) : bool :=
    Dec.ltb (fst a) (fst b)
    || (Dec.eqb (fst a) (fst b) && negb (snd a) && snd b).

  (** [sorted(..., key=sort_key)]: a stable sort; inserting each item after
      every item whose key is not greater yields the unique stable order. *)
Fixpoint insert_sorted {A : Type} (kf : A -> Dec.decimal * bool) (x : A) (l : list A)
    : list A :=
    match l with
    | [] => [x]
    | y :: l' => if sort_key_ltb (kf x) (kf y) then x :: l else y :: insert_sorted kf x l'
    end.

Definition sorted_by_key {A : Type} (kf : A -> Dec.decimal * bool) (l : list A) : list A :=
    fold_left (fun acc x => insert_sorted kf x acc) l [].

  (** [{t.seller_siren for t in transactions}] (set, kept in insertion order). *)
Definition siren_set (txns : list TransactionData) : list string :=
    fold_left (fun acc t => if existsb (String.eqb (t_seller_siren t)) acc
                            then acc else acc ++ [t_seller_siren t]) txns [].

  (** [aggregate_transactions(transactions, period_start, period_end)] *)
Definition aggregate_transactions (r : EReporter) (txns : list TransactionData)
      (period_start period_end : Cal.date)
    : EReportingError + AggregatedTransactionData :=
    match txns with
    | [] => inl EReportingEmptyDeclarationError
    | t0 :: _ =>
        let sirens := siren_set txns in
        if 1 <? Z.of_nat (length sirens) then
          inl (EReportingValidationError (MixedSirens sirens) [])
        else
          match group txns with
          | None => inl DecimalOverflow
          | Some breakdowns =>
              let items := sorted_by_key (fun kv => sort_key (fst kv)) breakdowns in
              let tbs := map (fun kv => mkTaxBreakdown (fst (fst kv)) (snd (fst kv))
                                          (fst (snd kv)) (snd (snd kv))) items in
              inr (mkAggregated (t_seller_siren t0) period_start period_end
                     (t_operation_category t0) tbs (t_vat_on_debits t0))
          end
    end.

  (** [_next_decadal_deadline]; [None] stands for the ValueError raised by
      the [date] constructor. *)
Definition next_decadal_deadline (ref : Cal.date) : option Cal.date :=
    let y := Cal.year ref in
    let m := Cal.month ref in
    let last_day := Cal.days_in_month y m in
    match Cal.mk_date y m 10, Cal.mk_date y m 20, Cal.mk_date y m last_day with
    | Some c1, Some c2, Some c3 =>
        match find (fun c => Cal.date_ltb ref c) [c1; c2; c3] with
        | Some c => Some c
        | None => if m =? 12 then Cal.mk_date (y + 1) 1 10 else Cal.mk_date y (m + 1) 10
        end
    | _, _, _ => None
    end.

  (** [_last_day_of_next_month] *)
Definition last_day_of_next_month (ref : Cal.date) : option Cal.date :=
    let y := Cal.year ref in
    let m := Cal.month ref in
    let '(ny, nm) := if m =? 12 then (y + 1, 1) else (y, m + 1) in
    Cal.mk_date ny nm (Cal.days_in_month ny nm).

Definition next_transaction_deadline (r : EReporter) (ref : Cal.date) : option Cal.date :=
    match vat_regime r with
    | REAL_NORMAL_MONTHLY | REAL_NORMAL_QUARTERLY => next_decadal_deadline ref
    | _ => last_day_of_next_month ref
    end.

End EReporting.

(* ------------------------------------------------------------------ *)
(** ** Textual form of Decimals: [str(d)] and [Decimal(text)]

    Python strings are modelled as Rocq strings whose characters are the
    code points 0..255. *)

Module DecStr.
  Import Dec.
  Local Open Scope string_scope.

Fixpoint string_of_uint (u : Decimal.uint) : string :=
    match u with
    | Decimal.Nil => EmptyString
    | Decimal.D0 u => String "0"%char (string_of_uint u)
    | Decimal.D1 u => String "1"%char (string_of_uint u)
    | Decimal.D2 u => String "2"%char (string_of_uint u)
    | Decimal.D3 u => String "3"%char (string_of_uint u)
    | Decimal.D4 u => String "4"%char (string_of_uint u)
    | Decimal.D5 u => String "5"%char (string_of_uint u)
    | Decimal.D6 u => String "6"%char (string_of_uint u)
    | Decimal.D7 u => String "7"%char (string_of_uint u)
    | Decimal.D8 u => String "8"%char (string_of_uint u)
    | Decimal.D9 u => String "9"%char (string_of_uint u)
    end.

Definition push_digit (c : ascii) (u : Decimal.uint) : option Decimal.uint :=
    match c with
    | "0"%char => Some (Decimal.D0 u) | "1"%char => Some (Decimal.D1 u)
    | "2"%char => Some (Decimal.D2 u) | "3"%char => Some (Decimal.D3 u)
    | "4"%char => Some (Decimal.D4 u) | "5"%char => Some (Decimal.D5 u)
    | "6"%char => Some (Decimal.D6 u) | "7"%char => Some (Decimal.D7 u)
    | "8"%char => Some (Decimal.D8 u) | "9"%char => Some (Decimal.D9 u)
    | _ => None
    end.

Fixpoint uint_of_string (s : string) : option Decimal.uint :=
    match s with
    | EmptyString => Some Decimal.Nil
    | String c s' =>
        match uint_of_string s' with Some u => push_digit c u | None => None end
    end.

Definition is_digit (c : ascii) : bool :=
    (48 <=? nat_of_ascii c)%nat && (nat_of_ascii c <=? 57)%nat.

  (** [str.isspace] on code points 0..255. *)
Definition is_space (c : ascii) : bool :=
    let n := nat_of_ascii c in
    ((9 <=? n) && (n <=? 13))%nat || ((28 <=? n) && (n <=? 32))%nat
    || (n =? 133)%nat || (n =? 160)%nat.

Fixpoint zeros (n : nat) : string :=
    match n with O => EmptyString | S n => String "0"%char (zeros n) end.

  (** [self._int]: the coefficient's digits. *)
Definition coef_string (d : decimal) : string := string_of_uint (N.to_uint (coef d)).

  (** ["%+d" % x] *)
Definition exp_string (x : Z) : string :=
    String (if (x <? 0)%Z then "-"%char else "+"%char) (string_of_uint (N.to_uint (Z.abs_N x))).

  (** [Decimal.__str__] for finite values (to-scientific-string). *)
Definition to_string (d : decimal) : string :=
    let s_int := coef_string d in
    let n := Z.of_nat (String.length s_int) in
    let leftdigits := exp d + n in
    let dotplace := if (exp d <=? 0)%Z && (-6 <? leftdigits)%Z then leftdigits else 1 in
    let body :=
      if (dotplace <=? 0)%Z then
        String "0"%char (String "."%char (zeros (Z.to_nat (- dotplace)) ++ s_int))
      else if (n <=? dotplace)%Z then s_int ++ zeros (Z.to_nat (dotplace - n))
      else substring 0 (Z.to_nat dotplace) s_int
           ++ String "."%char (substring (Z.to_nat dotplace) (Z.to_nat (n - dotplace)) s_int) in
    let e := if (leftdigits =? dotplace)%Z then EmptyString
             else String "E"%char (exp_string (leftdigits - dotplace)) in
    (if sign d then String "-"%char EmptyString else EmptyString) ++ body ++ e.

  (** Leading run of ASCII digits and the rest. *)
Fixpoint scan_digits (s : string) : string * string :=
    match s with
    | String c s' =>
        if is_digit c then let '(ds, r) := scan_digits s' in (String c ds, r)
        else (EmptyString, s)
    | EmptyString => (EmptyString, EmptyString)
    end.

Fixpoint strip_left (s : string) : string :=
    match s with
    | String c s' => if is_space c then strip_left s' else s
    | EmptyString => EmptyString
    end.

Definition rev_string (s : string) : string :=
    string_of_list_ascii (rev (list_ascii_of_string s)).

  (** [s.strip()] *)
Definition strip (s : string) : string := rev_string (strip_left (rev_string (strip_left s))).

Fixpoint remove_underscores (s : string) : string :=
    match s with
    | String c s' => if Ascii.eqb c "_"%char then remove_underscores s' else String c (remove_underscores s')
    | EmptyString => EmptyString
    end.

  (** Exponent part [E[-+]?\d+] (case-insensitive), up to the end. *)
Definition parse_exponent (s : string) : option Z :=
    match s with
    | EmptyString => Some 0%Z
    | String c s' =>
        if Ascii.eqb c "E"%char || Ascii.eqb c "e"%char then
          let '(neg, s'') := match s' with
                             | String "-"%char r => (true, r)
                             | String "+"%char r => (false, r)
                             | _ => (false, s')
                             end in
          let '(ds, rest) := scan_digits s'' in
          match ds, rest with
          | String _ _, EmptyString =>
              match uint_of_string ds with
              | Some u => Some (if neg then - Z.of_N (N.of_uint u) else Z.of_N (N.of_uint u))
              | None => None
              end
          | _, _ => None
          end
        else None
    end.

  (** [Decimal(text)] for the finite forms
      [[-+]? (?=\d|\.\d) \d* (\.\d* )? (E[-+]?\d+)?] after stripping
      whitespace and underscores; [None] for a ConversionSyntax error and
      for Infinity/NaN, which the pydantic models reject. *)
Definition of_string (text : string) : option decimal :=
    let s := remove_underscores (strip text) in
    let '(neg, s1) := match s with
                      | String "-"%char r => (true, r)
                      | String "+"%char r => (false, r)
                      | _ => (false, s)
                      end in
    let '(int_part, s2) := scan_digits s1 in
    let '(frac_part, s3) := match s2 with
                            | String "."%char r => scan_digits r
                            | _ => (EmptyString, s2)
                            end in
    match int_part ++ frac_part with
    | EmptyString => None
    | digits =>
        match parse_exponent s3, uint_of_string digits with
        | Some e, Some u =>
            Some (mkdec neg (N.of_uint u) (e - Z.of_nat (String.length frac_part)))
        | _, _ => None
        end
    end.

End DecStr.

(* ------------------------------------------------------------------ *)
(** ** CDAR messages (lifecycle/cdar.py) *)

Module CDAR.
  Import Enums.
  Local Open Scope string_scope.

Local Notation "x <- a ;; b" :=
    (match a with Some x => b | None => None end)
    (at level 61, a at next level, right associativity).

Record CDARParty := mkParty
    { identifier : string; scheme_id : string; role_code : CDARRoleCode }.

Record CDARMessage := mkMessage
    { message_id : string;
      issue_datetime : Cal.datetime;
      status_code : InvoiceStatus;
      invoice_reference : string;
      sender : CDARParty;
      recipients : list CDARParty;
      reason : option string;
      reason_code : option string;
      amount : option Dec.decimal }.

Definition CDAR_GUIDELINE_ID := "urn:factur-x.eu:1p0:cdar".
Definition CDAR_TYPE_CODE := "YC2".

  (** An lxml element: qualified tag (written with the prefixes of [NSMAP],
      which the parser's [ns] map binds to the same namespaces), attributes,
      [.text] and children.  Tails are not modelled: the parser never reads
      them. *)
#[warnings="-register-all"] Inductive node :=
  | Elem (tag : string) (attrs : list (string * string)) (text : option string)
         (children : list node).

Definition tag_of (n : node) : string := match n with Elem t _ _ _ => t end.
Definition text_of (n : node) : option string := match n with Elem _ _ x _ => x end.
Definition attrs_of (n : node) : list (string * string) :=
    match n with Elem _ a _ _ => a end.
Definition children_of (n : node) : list node := match n with Elem _ _ _ c => c end.

  (** lxml refuses ([ValueError]) text and attribute values with a
      character outside XML 1.0's [Char].  Among the code points U+0000 to
      U+00FF these are the control characters other than tab, newline and
      carriage return (lxml's [xmlIsChar_ch] test on ASCII; it accepts
      U+0080 to U+00FF).  The other refused characters (U+FFFE, U+FFFF and
      surrogates) lie above U+00FF. *)
Definition xml_char (c : ascii) : bool :=
    let n := nat_of_ascii c in
    (32 <=? n)%nat || (n =? 9)%nat || (n =? 10)%nat || (n =? 13)%nat.

Definition xml_compatible (s : string) : bool :=
    forallb xml_char (list_ascii_of_string s).

Definition checked (s : string) : option string :=
    if xml_compatible s then Some s else None.

Fixpoint map_option {A B : Type} (f : A -> option B) (l : list A) : option (list B) :=
    match l with
    | [] => Some []
    | x :: l' => y <- f x ;; ys <- map_option f l' ;; Some (y :: ys)
    end.

  (** [strftime("%Y%m%d")] with glibc's [strftime]: the year in decimal
      without padding (years are between 1 and 9999), month and day as 2
      zero-padded digits. *)
Definition digit_char (k : Z) : ascii := ascii_of_nat (48 + Z.to_nat k).

Fixpoint fixed_digits (w : nat) (z : Z) : string :=
    match w with
    | O => ""
    | S w' => String (digit_char ((z / 10 ^ Z.of_nat w') mod 10)) (fixed_digits w' z)
    end.

Definition strftime_ymd (dt : Cal.datetime) : string :=
    let d := Cal.dt_date dt in
    let y := Cal.year d in
    let ys := if (y <? 10)%Z then fixed_digits 1 y
              else if (y <? 100)%Z then fixed_digits 2 y
              else if (y <? 1000)%Z then fixed_digits 3 y
              else fixed_digits 4 y in
    ys ++ fixed_digits 2 (Cal.month d) ++ fixed_digits 2 (Cal.day d).

  (** [_build_party] *)
Definition build_party (tag : string) (p : CDARParty) : option node :=
    sid <- checked (scheme_id p) ;;
    pid <- checked (identifier p) ;;
    Some (Elem tag [] None
            [Elem "ram:ID" [("schemeID", sid)] (Some pid) [];
             Elem "ram:RoleCode" [] (Some (role_value (role_code p))) []]).

  (** [_build_context] *)
Definition build_context : node :=
    Elem "rsm:ExchangedDocumentContext" [] None
      [Elem "ram:GuidelineSpecifiedDocumentContextParameter" [] None
         [Elem "ram:ID" [] (Some CDAR_GUIDELINE_ID) []]].

  (** [_build_exchanged_document] *)
Definition build_exchanged_document (m : CDARMessage) : option node :=
    mid <- checked (message_id m) ;;
    snd <- build_party "ram:SenderTradeParty" (sender m) ;;
    rcps <- map_option (build_party "ram:RecipientTradeParty") (recipients m) ;;
    Some (Elem "rsm:ExchangedDocument" [] None
            ([Elem "ram:ID" [] (Some mid) [];
              Elem "ram:TypeCode" [] (Some CDAR_TYPE_CODE) [];
              Elem "ram:StatusCode" [] (Some (status_value (status_code m))) [];
              Elem "ram:IssueDateTime" [] None
                [Elem "udt:DateTimeString" [("format", "102")]
                   (Some (strftime_ymd (issue_datetime m))) []];
              snd] ++ rcps)).

  (** [if s:] on an optional string. *)
Definition truthy (s : option string) : bool :=
    match s with Some v => negb (String.eqb v "") | None => false end.

  (** An optional leaf, emitted when [cond] holds. *)
Definition opt_leaf (cond : bool) (tag : string) (s : option string)
    : option (list node) :=
    match cond, s with
    | true, Some v => t <- checked v ;; Some [Elem tag [] (Some t) []]
    | _, _ => Some []
    end.

  (** [_build_acknowledgement_document] *)
Definition build_acknowledgement_document (m : CDARMessage) : option node :=
    r <- opt_leaf (truthy (reason m)) "ram:ReasonInformation" (reason m) ;;
    rc <- opt_leaf (truthy (reason_code m)) "ram:ReasonCode" (reason_code m) ;;
    let am := match amount m with
              | Some a => [Elem "ram:SpecifiedAmount" [] (Some (DecStr.to_string a)) []]
              | None => []
              end in
    iref <- checked (invoice_reference m) ;;
    Some (Elem "rsm:AcknowledgementDocument" [] None
            ([Elem "ram:StatusCode" [] (Some (status_value (status_code m))) []]
             ++ r ++ rc ++ am
             ++ [Elem "ram:ReferenceReferencedDocument" [] None
                   [Elem "ram:IssuerAssignedID" [] (Some iref) []]])).

  (** [CDARGenerator.generate_xml], as the element tree that is serialised;
      [None] stands for the ValueError lxml raises. *)
Definition generate_xml (m : CDARMessage) : option node :=
    doc <- build_exchanged_document m ;;
    ack <- build_acknowledgement_document m ;;
    Some (Elem "rsm:CrossDomainAcknowledgementAndResponse" [] None
            [build_context; doc; ack]).

Fixpoint spaces (n : nat) : string :=
    match n with O => "" | S n => String " " (spaces n) end.

  (** [etree.fromstring(etree.tostring(root, pretty_print=True))]: markup
      characters are escaped and restored, so text and attribute values
      come back unchanged, except that an empty text is read back as
      [None]; pretty printing gives each element that has only element
      children the indentation text ["\n" + "  " * (depth + 1)]. *)
Fixpoint reparse (depth : nat) (n : node) : node :=
    match n with
    | Elem t a x ch =>
        let x' := match x, ch with
                  | None, _ :: _ => Some (String (ascii_of_nat 10) (spaces (2 * S depth)))
                  | Some "", _ => None
                  | _, _ => x
                  end in
        Elem t a x' (map (reparse (S depth)) ch)
    end.

  (** [elem.find(tag)] and [elem.findall(tag)] on a single step. *)
Definition find_child (tag : string) (n : node) : option node :=
    find (fun c => String.eqb (tag_of c) tag) (children_of n).

Definition findall (tag : string) (n : node) : list node :=
    filter (fun c => String.eqb (tag_of c) tag) (children_of n).

  (** [elem.find("a/b")] *)
Definition find_path2 (a b : string) (n : node) : option node :=
    match flat_map (findall b) (findall a n) with x :: _ => Some x | [] => None end.

Fixpoint attr_get (k : string) (l : list (string * string)) : option string :=
    match l with
    | [] => None
    | (k', v) :: l' => if String.eqb k k' then Some v else attr_get k l'
    end.

  (** [_get_text]: ValueError when the element is missing or its text is
      empty. *)
Definition get_text (parent : node) (tag : string) : option string :=
    e <- find_child tag parent ;;
    match text_of e with
    | Some t => if String.eqb t "" then None else Some t
    | None => None
    end.

  (** [_get_text_optional] *)
Definition get_text_optional (parent : node) (tag : string) : option string :=
    match find_child tag parent with Some e => text_of e | None => None end.

  (** [_parse_party] *)
Definition parse_party (e : node) : option CDARParty :=
    id_elem <- find_child "ram:ID" e ;;
    rc <- get_text e "ram:RoleCode" ;;
    role <- role_of_value rc ;;
    Some (mkParty (match text_of id_elem with Some t => t | None => "" end)
                  (match attr_get "schemeID" (attrs_of id_elem) with
                   | Some v => v | None => "" end)
                  role).

  (** [datetime.strptime(text, "%Y%m%d")]: the regular expression
      [(\d\d\d\d)(1[0-2]|0[1-9]|[1-9])(3[01]|[12]\d|0[1-9]|[1-9]| [1-9])]
      is matched at the start (alternatives tried in order, with
      backtracking), the match must reach the end of the text, and the
      date must exist. *)
Definition dval (c : ascii) : Z := Z.of_nat (nat_of_ascii c) - 48.

Definition in_range (c : ascii) (lo hi : nat) : bool :=
    (lo <=? nat_of_ascii c)%nat && (nat_of_ascii c <=? hi)%nat.

Definition alt := string -> option (Z * string).

Definition month_alts : list alt :=
    [ (fun s => match s with
                | String a (String b r) =>
                    if Ascii.eqb a "1"%char && in_range b 48 50
                    then Some (10 + dval b, r) else None
                | _ => None end);
      (fun s => match s with
                | String a (String b r) =>
                    if Ascii.eqb a "0"%char && in_range b 49 57
                    then Some (dval b, r) else None
                | _ => None end);
      (fun s => match s with
                | String a r => if in_range a 49 57 then Some (dval a, r) else None
                | _ => None end) ].

Definition day_alts : list alt :=
    [ (fun s => match s with
                | String a (String b r) =>
                    if Ascii.eqb a "3"%char && in_range b 48 49
                    then Some (30 + dval b, r) else None
                | _ => None end);
      (fun s => match s with
                | String a (String b r) =>
                    if in_range a 49 50 && in_range b 48 57
                    then Some (10 * dval a + dval b, r) else None
                | _ => None end);
      (fun s => match s with
                | String a (String b r) =>
                    if Ascii.eqb a "0"%char && in_range b 49 57
                    then Some (dval b, r) else None
                | _ => None end);
      (fun s => match s with
                | String a r => if in_range a 49 57 then Some (dval a, r) else None
                | _ => None end);
      (fun s => match s with
                | String a (String b r) =>
                    if Ascii.eqb a " "%char && in_range b 49 57
                    then Some (dval b, r) else None
                | _ => None end) ].

Fixpoint first_some {A B : Type} (f : A -> option B) (l : list A) : option B :=
    match l with
    | [] => None
    | x :: l' => match f x with Some y => Some y | None => first_some f l' end
    end.

Definition strptime_ymd (text : string) : option Cal.datetime :=
    match text with
    | String y1 (String y2 (String y3 (String y4 r))) =>
        if forallb DecStr.is_digit [y1; y2; y3; y4] then
          let y := 1000 * dval y1 + 100 * dval y2 + 10 * dval y3 + dval y4 in
          match first_some (fun ma => match ma r with
                                      | Some (mo, r') =>
                                          first_some (fun da => match da r' with
                                                                | Some (dd, r'') => Some (mo, dd, r'')
                                                                | None => None end) day_alts
                                      | None => None end) month_alts with
          | Some (mo, dd, EmptyString) =>
              dt <- Cal.mk_date y mo dd ;; Some (Cal.mkdatetime dt 0)
          | _ => None
          end
        else None
    | _ => None
    end.

  (** [CDARParser.parse] on the tree read back by [etree.fromstring];
      [None] stands for the ValueError (or TypeError) it raises. *)
Definition parse (root : node) : option CDARMessage :=
    doc <- find_child "rsm:ExchangedDocument" root ;;
    mid <- get_text doc "ram:ID" ;;
    sc_text <- get_text doc "ram:StatusCode" ;;
    sc <- status_of_value sc_text ;;
    dts <- find_path2 "ram:IssueDateTime" "udt:DateTimeString" doc ;;
    dtext <- text_of dts ;;
    idt <- strptime_ymd dtext ;;
    sender_elem <- find_child "ram:SenderTradeParty" doc ;;
    snd <- parse_party sender_elem ;;
    rcps <- map_option parse_party (findall "ram:RecipientTradeParty" doc) ;;
    ack <- find_child "rsm:AcknowledgementDocument" root ;;
    let rs := get_text_optional ack "ram:ReasonInformation" in
    let rsc := get_text_optional ack "ram:ReasonCode" in
    am <- match get_text_optional ack "ram:SpecifiedAmount" with
          | Some t => if String.eqb t "" then Some None
                      else option_map Some (DecStr.of_string t)
          | None => Some None
          end ;;
    ref_doc <- find_child "ram:ReferenceReferencedDocument" ack ;;
    iref <- get_text ref_doc "ram:IssuerAssignedID" ;;
    Some (mkMessage mid idt sc iref snd rcps rs rsc am).

  (** [CDARParser().parse(CDARGenerator().generate_xml(m))] *)
Definition roundtrip (m : CDARMessage) : option CDARMessage :=
    tree <- generate_xml m ;; parse (reparse 0 tree).

End CDAR.

(* ------------------------------------------------------------------ *)
(** ** Driving the manager through a sequence of calls *)

Module LifecycleRun.
  Import Enums Lifecycle.

  (** The arguments of one [transition] call, with the clock reading. *)
Record call := mkCall
    { c_now : Cal.datetime; c_target : InvoiceStatus;
      c_reason : option string; c_reason_code : option string;
      c_producer : option CDARRoleCode; c_amount : option Dec.decimal;
      c_timestamp : option Cal.datetime }.

Definition apply_call (m : LifecycleManager) (c : call)
    : (TransitionError + LifecycleEvent) * LifecycleManager :=
    transition m (c_now c) (c_target c) (c_reason c) (c_reason_code c)
      (c_producer c) (c_amount c) (c_timestamp c).

  (** Runs the calls in order, the caller catching each error; returns the
      final manager and the number of calls that returned an event. *)
Fixpoint run (m : LifecycleManager) (cs : list call) : LifecycleManager * nat :=
    match cs with
    | [] => (m, O)
    | c :: cs' =>
        let '(res, m') := apply_call m c in
        let '(mf, k) := run m' cs' in
        (mf, match res with inr _ => S k | inl _ => k end)
    end.

End LifecycleRun.

(* ------------------------------------------------------------------ *)
(** ** Statements of the specification, written from its words *)

Module SpecText.
  Import Enums.

  (** The transition table of the specification (section 4.1), with the
      spec's English names mapped to the enum members: DEPOSITED = DEPOSEE,
      ISSUED = EMISE, RECEIVED = RECUE, MADE_AVAILABLE = MISE_A_DISPOSITION,
      ACKNOWLEDGED = PRISE_EN_CHARGE, APPROVED = APPROUVEE,
      PARTIALLY_APPROVED = PARTIELLEMENT_APPROUVEE, DISPUTED = EN_LITIGE,
      SUSPENDED = SUSPENDUE, COMPLETED = COMPLETEE,
      PAYMENT_INITIATED = PAIEMENT_TRANSMIS, CASHED = ENCAISSEE,
      REFUSED = REFUSEE, REJECTED_AT_EMISSION = REJETEE_EMISSION,
      REJECTED_AT_RECEPTION = REJETEE_RECEPTION. *)
Definition spec_edges (s : InvoiceStatus) : list InvoiceStatus :=
    match s with
    | DEPOSEE => [EMISE; REJETEE_EMISSION]
    | EMISE => [RECUE; REJETEE_RECEPTION]
    | RECUE => [MISE_A_DISPOSITION; REJETEE_RECEPTION]
    | MISE_A_DISPOSITION => [PRISE_EN_CHARGE; REJETEE_RECEPTION]
    | PRISE_EN_CHARGE => [APPROUVEE; PARTIELLEMENT_APPROUVEE; REFUSEE; EN_LITIGE; SUSPENDUE]
    | APPROUVEE => [PAIEMENT_TRANSMIS; ENCAISSEE]
    | PARTIELLEMENT_APPROUVEE => [PAIEMENT_TRANSMIS; REFUSEE; EN_LITIGE]
    | EN_LITIGE => [APPROUVEE; REFUSEE; SUSPENDUE]
    | SUSPENDUE => [COMPLETEE]
    | COMPLETEE => [PRISE_EN_CHARGE]
    | PAIEMENT_TRANSMIS => [ENCAISSEE]
    | REJETEE_EMISSION | REJETEE_RECEPTION | REFUSEE | ENCAISSEE => []
    end.

Definition spec_terminal (s : InvoiceStatus) : Prop :=
    s = REJETEE_EMISSION \/ s = REJETEE_RECEPTION \/ s = REFUSEE \/ s = ENCAISSEE.

  (** The decadal deadline as the spec states it: the earliest of the 10th,
      the 20th and the last day of the month strictly after [d], else the
      10th of the following month. *)
Definition spec_next_deadline (d : Cal.date) : Cal.date :=
    let y := Cal.year d in
    let m := Cal.month d in
    let later := filter (fun k => Cal.day d <? k) [10; 20; Cal.days_in_month y m] in
    match later with
    | k :: ks => Cal.mkdate y m (fold_left Z.min ks k)
    | [] => if m =? 12 then Cal.mkdate (y + 1) 1 10 else Cal.mkdate y (m + 1) 10
    end.

End SpecText.

(* ------------------------------------------------------------------ *)
(** ** Concrete inputs used by the witnesses and counterexamples *)

Module Samples.
  Import Enums EReporting.

Definition reporter_monthly : EReporter := mkEReporter "123456789" REAL_NORMAL_MONTHLY.

Definition day0 : Cal.date := Cal.mkdate 2025 6 1.
Definition day1 : Cal.date := Cal.mkdate 2025 6 30.

  (** A transaction with the given SIREN, category, amounts, rate,
      exemption flag and VAT-on-debits option (other fields defaulted). *)
Definition txn (siren : string) (cat : OperationCategory) (ht vat : Z)
      (rate : option Dec.decimal) (exempt vod : bool) : TransactionData :=
    mkTransaction "t" siren B2C_DOMESTIC None None (Some day0) None cat
      (Dec.of_Z ht) (Dec.of_Z vat) rate exempt None vod None "EUR".

  (** An exempt sale without a rate, then a zero-rated sale. *)
Definition tx_exempt : TransactionData := txn "123456789" DELIVERY 100 0 None true false.
Definition tx_zero : TransactionData :=
    txn "123456789" DELIVERY 50 0 (Some (Dec.of_Z 0)) false false.

  (** Two sales of one seller differing in category and VAT-on-debits. *)
Definition tx_goods : TransactionData :=
    txn "123456789" DELIVERY 100 20 (Some (Dec.of_Z 20)) false false.
Definition tx_services : TransactionData :=
    txn "123456789" SERVICE 200 40 (Some (Dec.of_Z 20)) false true.


  (** An aggregate whose single breakdown is (0, 0). *)
Definition agg_zero : AggregatedTransactionData :=
    mkAggregated "123456789" day0 day1 DELIVERY
      [mkTaxBreakdown (Some (Dec.of_Z 20)) false (Dec.of_Z 0) (Dec.of_Z 0)] false.





  (** A sale at rate 20 of taxable amount 9E+999999. *)
Definition tx_huge : TransactionData :=
    mkTransaction "t" "123456789" B2C_DOMESTIC None None (Some day0) None DELIVERY
      (Dec.mkdec false 9 999999) (Dec.of_Z 0) (Some (Dec.of_Z 20)) false None false
      None "EUR".

  (** The aggregate of [tx_goods], [tx_services] and [tx_exempt]. *)
Definition agg_sample : AggregatedTransactionData :=
    match aggregate_transactions reporter_monthly [tx_goods; tx_services; tx_exempt] day0 day1 with
    | inr a => a
    | inl _ => agg_zero
    end.

End Samples.

(* ------------------------------------------------------------------ *)
(** ** Views of the codec used by the proofs *)

Module CodecViews.
  Import Enums CDAR.
  Local Open Scope string_scope.

  (** Every character of a string satisfies [p]. *)
Definition all_chars (p : ascii -> bool) (s : string) : bool :=
    forallb p (list_ascii_of_string s).

  (** Characters [str(Decimal)] writes for a finite value. *)
Definition plain (c : ascii) : bool :=
    DecStr.is_digit c || Ascii.eqb c "-"%char || Ascii.eqb c "+"%char
    || Ascii.eqb c "."%char || Ascii.eqb c "E"%char.

  (** The month and day alternatives of [strptime_ymd] after the year. *)
Definition md_of (r : string) : option (Z * Z * string) :=
    first_some (fun ma => match ma r with
                          | Some (mo, r') =>
                              first_some (fun da => match da r' with
                                                    | Some (dd, r'') => Some (mo, dd, r'')
                                                    | None => None end) day_alts
                          | None => None end) month_alts.

  (** The element [_build_party] appends, once its strings are accepted. *)
Definition party_node (tag : string) (p : CDARParty) : node :=
    Elem tag [] None
      [Elem "ram:ID" [("schemeID", scheme_id p)] (Some (identifier p)) [];
       Elem "ram:RoleCode" [] (Some (role_value (role_code p))) []].

  (** The strings of a party that lxml accepts. *)
Definition party_ok (p : CDARParty) : bool :=
    xml_compatible (scheme_id p) && xml_compatible (identifier p).

End CodecViews.

(* ------------------------------------------------------------------ *)
(** ** Concrete CDAR messages *)

Module CDARSamples.
  Import Enums CDAR.
  Local Open Scope string_scope.

Definition seller : CDARParty := mkParty "123456789" "0002" SELLER.
Definition buyer : CDARParty := mkParty "987654321" "0002" BUYER.


  (** The same message with an empty reason. *)
Definition msg_empty_reason : CDARMessage :=
    mkMessage "MSG-2025-002" (Cal.mkdatetime (Cal.mkdate 2025 9 15) 0) REFUSEE "FA-2025-042"
      seller [buyer] (Some "") None None.




End CDARSamples.

(* ------------------------------------------------------------------ *)
(** ** The rest of EReporter (ereporting/reporter.py, ereporting/models.py) *)

Module EReporterOps.
  Import Enums EReporting.
  Local Open Scope string_scope.

  (** [n] leading characters matched by [\d], then the rest.  [\d] matches
      the Unicode decimal digits (category Nd); among the code points U+0000
      to U+00FF these are exactly '0' to '9' (superscripts and fractions
      are category No). *)
Fixpoint digits_prefix (n : nat) (s : string) : option string :=
    match n, s with
    | O, _ => Some s
    | S n', String c r => if DecStr.is_digit c then digits_prefix n' r else None
    | S _, EmptyString => None
    end.

  (** [_SIREN_RE.match(s)] with [_SIREN_RE = re.compile(r"^\d{9}$")]: nine
      digits, then the end of the text or a line feed that ends the text
      (where [$] also matches). *)
Definition siren_re_match (s : string) : bool :=
    match digits_prefix 9 s with
    | Some EmptyString => true
    | Some (String c EmptyString) => Ascii.eqb c (ascii_of_nat 10)
    | _ => false
    end.

  (** [EReporter(seller_siren, vat_regime)]; [None] is the ValueError. *)
Definition new_reporter (siren : string) (regime : VATRegime) : option EReporter :=
    if siren_re_match siren then Some (mkEReporter siren regime) else None.

  (** The messages [validate_transaction] appends (formatted strings in the
      source). *)
Inductive TransactionMessage :=
  | SirenMismatchTransaction (found expected : string)
  | CountryCodeRequired
  | CountryCodeNotFR
  | VatRateOrExemptionRequired
  | InvoiceDateOrPeriodRequired.

  (** [validate_transaction] *)
Definition validate_transaction (r : EReporter) (t : TransactionData)
    : list TransactionMessage :=
    (if negb (String.eqb (t_seller_siren t) (seller_siren r))
     then [SirenMismatchTransaction (t_seller_siren t) (seller_siren r)] else [])
    ++ (match transaction_type t with
        | B2B_INTRA_EU | B2B_EXTRA_EU =>
            match country_code t with
            | None => [CountryCodeRequired]
            | Some c =>
                if String.eqb c "" then [CountryCodeRequired]
                else if String.eqb c "FR" then [CountryCodeNotFR] else []
            end
        | B2C_DOMESTIC => []
        end)
    ++ (match t_vat_rate t with
        | None => if t_vat_exemption t then [] else [VatRateOrExemptionRequired]
        | Some _ => []
        end)
    ++ (match invoice_date t, t_period_start t with
        | None, None => [InvoiceDateOrPeriodRequired]
        | _, _ => []
        end).

  (** [PaymentData] *)
Record PaymentData := mkPayment
    { payment_id : string;
      p_seller_siren : string;
      cashing_date : Cal.date;
      cashed_amount : Dec.decimal;
      p_currency : string;
      p_invoice_reference : string }.

Inductive PaymentMessage :=
  | SirenMismatchPayment (found expected : string).

  (** [validate_payment] *)
Definition validate_payment (r : EReporter) (p : PaymentData) : list PaymentMessage :=
    if negb (String.eqb (p_seller_siren p) (seller_siren r))
    then [SirenMismatchPayment (p_seller_siren p) (seller_siren r)] else [].

  (** [EReportingTransmissionMode] (models/enums.py) *)
Inductive EReportingTransmissionMode := INDIVIDUAL | AGGREGATED.

  (** [EReportingSubmission]; [submission_id] ([uuid4()]) and [created_at]
      ([datetime.now(tz=UTC)]) are the values the factories return. *)
Record EReportingSubmission := mkSubmission
    { submission_id : string;
      transmission_mode : EReportingTransmissionMode;
      transaction_data : option TransactionData;
      aggregated_data : option AggregatedTransactionData;
      payment_data : option PaymentData;
      created_at : Cal.datetime }.

  (** What the [prepare_*] methods raise: an error of the validation they
      call, or [EReportingValidationError(msg, errors=errors)], whose
      message is the fixed prefix followed by ["; ".join(errors)]. *)
Inductive PrepareError (M : Type) :=
  | Propagated (e : EReportingError)
  | Invalid (errors : list M).
Arguments Propagated {M} e.
Arguments Invalid {M} errors.

  (** [prepare_transaction] *)
Definition prepare_transaction (r : EReporter) (t : TransactionData)
      (sid : string) (now : Cal.datetime)
    : PrepareError TransactionMessage + EReportingSubmission :=
    match validate_transaction r t with
    | [] => inr (mkSubmission sid INDIVIDUAL (Some t) None None now)
    | errors => inl (Invalid errors)
    end.

  (** [prepare_aggregated] *)
Definition prepare_aggregated (r : EReporter) (agg : AggregatedTransactionData)
      (sid : string) (now : Cal.datetime)
    : PrepareError Message + EReportingSubmission :=
    match validate_aggregated r agg with
    | inl e => inl (Propagated e)
    | inr [] => inr (mkSubmission sid AGGREGATED None (Some agg) None now)
    | inr errors => inl (Invalid errors)
    end.

  (** [prepare_payment] *)
Definition prepare_payment (r : EReporter) (p : PaymentData)
      (sid : string) (now : Cal.datetime)
    : PrepareError PaymentMessage + EReportingSubmission :=
    match validate_payment r p with
    | [] => inr (mkSubmission sid INDIVIDUAL None None (Some p) now)
    | errors => inl (Invalid errors)
    end.

  (** [TransmissionSchedule] *)
Record TransmissionSchedule := mkSchedule
    { sch_vat_regime : VATRegime;
      transaction_frequency : string;
      payment_frequency : option string }.

  (** [_TRANSACTION_FREQUENCIES] and [_PAYMENT_FREQUENCIES] (both have every
      regime as a key). *)
Definition TRANSACTION_FREQUENCIES (v : VATRegime) : string :=
    match v with
    | REAL_NORMAL_MONTHLY | REAL_NORMAL_QUARTERLY => "tous les 10 jours"
    | SIMPLIFIED_REAL | FRANCHISE => "mensuel"
    end.

Definition PAYMENT_FREQUENCIES (v : VATRegime) : option string :=
    match v with
    | REAL_NORMAL_MONTHLY | REAL_NORMAL_QUARTERLY | SIMPLIFIED_REAL => Some "mensuel"
    | FRANCHISE => None
    end.

  (** [get_transmission_schedule] *)
Definition get_transmission_schedule (r : EReporter) : TransmissionSchedule :=
    mkSchedule (vat_regime r) (TRANSACTION_FREQUENCIES (vat_regime r))
      (PAYMENT_FREQUENCIES (vat_regime r)).

  (** [next_payment_deadline]: the outer [None] is the ValueError of the
      [date] constructor, the inner one the [None] returned for the
      franchise regime. *)
Definition next_payment_deadline (r : EReporter) (ref : Cal.date)
    : option (option Cal.date) :=
    match vat_regime r with
    | FRANCHISE => Some None
    | _ => option_map Some (last_day_of_next_month ref)
    end.

End EReporterOps.

(* ------------------------------------------------------------------ *)
(** ** Views used by the further properties *)

Module MoreViews.
  Import Enums Lifecycle EReporting CDAR CodecViews.
  Local Open Scope string_scope.

  (** The statuses [l] are visited in turn from [s] along [TRANSITIONS]. *)
Fixpoint is_walk (s : InvoiceStatus) (l : list InvoiceStatus) : bool :=
    match l with
    | [] => true
    | t :: l' => existsb (status_eqb t) (targets_of s) && is_walk t l'
    end.

  (** The [(vat_rate, vat_exemption)] key of a breakdown and of a
      transaction. *)
Definition tb_key (tb : TaxBreakdown) : key := (tb_vat_rate tb, tb_vat_exemption tb).
Definition t_key (t : TransactionData) : key := (t_vat_rate t, t_vat_exemption t).

  (** No two keys of the list are equal as dict keys. *)
Fixpoint keys_distinct (l : list key) : bool :=
    match l with
    | [] => true
    | k :: l' => negb (existsb (key_eqb k) l') && keys_distinct l'
    end.

  (** No sort key is smaller than the one before it. *)
Fixpoint keys_sorted (l : list (Dec.decimal * bool)) : bool :=
    match l with
    | a :: (b :: _) as l' => negb (sort_key_ltb b a) && keys_sorted l'
    | _ => true
    end.

  (** An empty optional text, as the parser reads it back. *)
Definition norm_text (s : option string) : option string :=
    match s with Some EmptyString => None | _ => s end.

Definition text_ok (s : option string) : bool :=
    match s with Some v => xml_compatible v | None => true end.

  (** Every string the generator writes is accepted by lxml. *)
Definition strings_ok (m : CDARMessage) : bool :=
    xml_compatible (message_id m) && party_ok (sender m)
    && forallb party_ok (recipients m) && text_ok (reason m)
    && text_ok (reason_code m) && xml_compatible (invoice_reference m).

  (** The message the parser gives back for [m]. *)
Definition normalize (m : CDARMessage) : CDARMessage :=
    mkMessage (message_id m) (Cal.mkdatetime (Cal.dt_date (issue_datetime m)) 0)
      (status_code m) (invoice_reference m) (sender m) (recipients m)
      (norm_text (reason m)) (norm_text (reason_code m)) (amount m).

  (** Adding one transaction's amounts to running sums, taxable amount
      first; [None] once an addition overflows. *)
Definition sums_step (acc : option (Dec.decimal * Dec.decimal)) (t : TransactionData)
    : option (Dec.decimal * Dec.decimal) :=
    match acc with
    | Some (x, y) =>
        match Dec.add x (t_total_excl_tax t) with
        | Some x' =>
            match Dec.add y (t_vat_amount t) with
            | Some y' => Some (x', y')
            | None => None
            end
        | None => None
        end
    | None => None
    end.

  (** The running sums of [aggregate_transactions] for the key [k]: the
      taxable amount and the VAT of the transactions with that key, added
      in list order to those of the first one; [None] when none has it or
      an addition overflows. *)
Definition group_sums (k : key) (txns : list TransactionData)
    : option (Dec.decimal * Dec.decimal) :=
    match filter (fun t => key_eqb k (t_key t)) txns with
    | [] => None
    | t1 :: rest => fold_left sums_step rest (Some (t_total_excl_tax t1, t_vat_amount t1))
    end.



  (** The invariant of the grouping loop after the transactions [L]. *)
Definition group_inv (d : list (key * (Dec.decimal * Dec.decimal))) (L : list TransactionData) :=
    keys_distinct (map fst d) = true
    /\ (forall k v, In (k, v) d -> group_sums k L = Some v)
    /\ (forall t, In t L -> existsb (key_eqb (t_key t)) (map fst d) = true)
    /\ (length d <= length L)%nat
    /\ (L <> [] -> d <> []).

  (** The [TaxBreakdown] built from one sorted dict item. *)
Definition tb_of (kv : key * (Dec.decimal * Dec.decimal)) : TaxBreakdown :=
    mkTaxBreakdown (fst (fst kv)) (snd (fst kv)) (fst (snd kv)) (snd (snd kv)).

End MoreViews.

(* ================================================================== *)
(** * Lifecycle properties *)

Module LifecycleFacts.
  Import Enums Lifecycle LifecycleRun SpecText.

Lemma status_eqb_spec (a b : InvoiceStatus) : status_eqb a b = true <-> a = b.
  Proof.
    split.
    - destruct a, b; intros H; try reflexivity; vm_compute in H; discriminate.
    - intros ->; destruct b; reflexivity.
  Qed.

Lemma can_transition_in (m : LifecycleManager) (t : InvoiceStatus) :
    can_transition m t = true -> In t (targets_of (status m)).
  Proof.
    unfold can_transition; rewrite existsb_exists.
    intros [x [Hin Heq]]; apply status_eqb_spec in Heq; subst; exact Hin.
  Qed.

Lemma deposee_no_incoming (s : InvoiceStatus) : ~ In DEPOSEE (targets_of s).
  Proof. destruct s; simpl; intuition discriminate. Qed.

  (** Every call either fails and leaves the manager as it was, or returns
      an event for the target, which becomes the status and is appended. *)
Lemma transition_cases m now t r rc p a ts :
    (exists e, transition m now t r rc p a ts = (inl e, m))
    \/ (exists ev, transition m now t r rc p a ts
                   = (inr ev, mkManager (invoice_reference m) t (history m ++ [ev]))
                 /\ ev_status ev = t /\ In t (targets_of (status m))).
  Proof.
    unfold transition.
    destruct (can_transition m t) eqn:Hc; cbn [negb].
    2: left; eexists; reflexivity.
    pose proof (can_transition_in m t Hc) as Hin.
    destruct (assoc_get t STATUS_METADATA) as [md|].
    - destruct (reason_required md && str_missing r).
      + left; eexists; reflexivity.
      + right; eexists; split; [reflexivity | split; [reflexivity | exact Hin]].
    - right; eexists; split; [reflexivity | split; [reflexivity | exact Hin]].
  Qed.

  (** ** C1 *)

  (** C1 (counterexample): the claim counts 14 statuses, but the graph has
      15 distinct keys: 5 mandatory and 10 recommended statuses. *)
Lemma transitions_have_15_keys :
    NoDup (map fst TRANSITIONS) /\ length (map fst TRANSITIONS) = 15%nat
    /\ length (map fst TRANSITIONS) <> 14%nat.
  Proof.
    split; [|split; [reflexivity | discriminate]].
    simpl; repeat constructor; simpl; intuition discriminate.
  Qed.

  (** C1 (amended): the transition graph and the status metadata both have
      each of the 15 statuses as a key exactly once, the graph's targets are
      exactly those of the specification's table, and the terminal statuses
      are exactly REJECTED_AT_EMISSION, REJECTED_AT_RECEPTION, REFUSED and
      CASHED (four of them). *)
Theorem transition_graph_exact :
    (forall s, In s (map fst TRANSITIONS) /\ In s (map fst STATUS_METADATA))
    /\ NoDup (map fst TRANSITIONS) /\ NoDup (map fst STATUS_METADATA)
    /\ length (map fst TRANSITIONS) = 15%nat
    /\ length (map fst STATUS_METADATA) = 15%nat
    /\ (forall s, assoc_get s TRANSITIONS = Some (spec_edges s))
    /\ (forall s, In s TERMINAL_STATUSES <-> spec_terminal s)
    /\ NoDup TERMINAL_STATUSES /\ length TERMINAL_STATUSES = 4%nat.
  Proof.
    split; [intros s; destruct s; simpl; tauto|].
    split; [simpl; repeat constructor; simpl; intuition discriminate|].
    split; [simpl; repeat constructor; simpl; intuition discriminate|].
    split; [reflexivity|]; split; [reflexivity|].
    split; [intros s; destruct s; reflexivity|].
    split; [intros s; unfold spec_terminal; simpl; intuition (subst; auto)|].
    split; [simpl; repeat constructor; simpl; intuition discriminate | reflexivity].
  Qed.

  (** ** C2 *)

  (** C2: whenever [transition] raises (invalid transition or missing
      reason), the manager's status, history and reference are exactly
      those it had before the call. *)
Theorem transition_error_leaves_state m now t r rc p a ts e :
    fst (transition m now t r rc p a ts) = inl e ->
    snd (transition m now t r rc p a ts) = m.
  Proof.
    destruct (transition_cases m now t r rc p a ts) as [[e' H] | [ev [H _]]];
      rewrite H; simpl; [reflexivity | discriminate].
  Qed.

  (** ** C3 *)

  (** C3: from ACKNOWLEDGED (PRISE_EN_CHARGE), REFUSED without a reason
      raises the missing-reason error and changes nothing; with a non-empty
      reason it succeeds, the status becomes REFUSED and the returned
      event carries that reason. *)
Theorem refused_requires_reason m now rc p a ts r :
    status m = PRISE_EN_CHARGE -> r <> ""%string ->
    transition m now REFUSEE None rc p a ts = (inl (MissingReason REFUSEE), m)
    /\ exists ev,
         transition m now REFUSEE (Some r) rc p a ts
         = (inr ev, mkManager (invoice_reference m) REFUSEE (history m ++ [ev]))
         /\ ev_reason ev = Some r /\ ev_status ev = REFUSEE.
  Proof.
    intros Hs Hr.
    unfold transition, can_transition; rewrite Hs; simpl.
    split; [reflexivity|].
    apply String.eqb_neq in Hr; rewrite Hr; simpl.
    eexists; split; [reflexivity | split; reflexivity].
  Qed.

  (** ** C8 *)

Lemma run_invariant cs : forall m,
    length (history (fst (run m cs))) = (length (history m) + snd (run m cs))%nat
    /\ (forall e, In e (history (fst (run m cs))) ->
                  In e (history m) \/ ev_status e <> DEPOSEE).
  Proof.
    induction cs as [|c cs IH]; intros m; simpl.
    - split; [lia | auto].
    - unfold apply_call.
      destruct (transition_cases m (c_now c) (c_target c) (c_reason c) (c_reason_code c)
                  (c_producer c) (c_amount c) (c_timestamp c))
        as [[e H] | [ev [H [Hst Hin]]]]; rewrite H.
      + destruct (run m cs) as [mf k] eqn:Hr.
        specialize (IH m); rewrite Hr in IH; simpl in *; exact IH.
      + set (m' := mkManager (invoice_reference m) (c_target c) (history m ++ [ev])).
        destruct (run m' cs) as [mf k] eqn:Hr.
        specialize (IH m'); rewrite Hr in IH; simpl in *.
        destruct IH as [Hlen Hev]; split.
        * rewrite Hlen; unfold m'; simpl; rewrite length_app; simpl; lia.
        * intros e0 He0; destruct (Hev e0 He0) as [Hh | Hh]; [|right; exact Hh].
          unfold m' in Hh; simpl in Hh; apply in_app_or in Hh.
          destruct Hh as [Hh | [Hh | []]]; [left; exact Hh|].
          right; subst e0; rewrite Hst; intros Heq; rewrite Heq in Hin.
          exact (deposee_no_incoming _ Hin).
  Qed.

  (** C8: a new manager has an empty history whatever its initial status;
      after any sequence of calls its history length is the number of
      calls that returned an event; and no event of its history, hence of
      [mandatory_events()], has status DEPOSITED (DEPOSEE), which has no
      incoming edge. *)
Theorem fresh_manager_history ref init cs :
    history (Lifecycle.init ref init) = []
    /\ length (history (fst (run (Lifecycle.init ref init) cs)))
       = snd (run (Lifecycle.init ref init) cs)
    /\ (forall e, In e (history (fst (run (Lifecycle.init ref init) cs))) ->
                  ev_status e <> DEPOSEE)
    /\ (forall e, In e (mandatory_events (fst (run (Lifecycle.init ref init) cs))) ->
                  ev_status e <> DEPOSEE)
    /\ (forall s, ~ In DEPOSEE (targets_of s)).
  Proof.
    destruct (run_invariant cs (Lifecycle.init ref init)) as [Hlen Hev].
    split; [reflexivity|]; split; [exact Hlen|].
    assert (Hall : forall e, In e (history (fst (run (Lifecycle.init ref init) cs))) ->
                             ev_status e <> DEPOSEE).
    { intros e He; destruct (Hev e He) as [[] | H]; exact H. }
    split; [exact Hall|]; split; [|exact deposee_no_incoming].
    intros e He; unfold mandatory_events in He; apply filter_In in He.
    exact (Hall e (proj1 He)).
  Qed.

  (** Witness for C2: a manager at DEPOSEE asked for CASHED (ENCAISSEE). *)
Lemma transition_error_leaves_state_witness :
    fst (transition (Lifecycle.init "F-1" None) (Cal.mkdatetime (Cal.mkdate 2025 1 1) 0)
           ENCAISSEE None None None None None)
      = inl (InvalidTransition DEPOSEE ENCAISSEE ["201"; "209"]%string)
    /\ snd (transition (Lifecycle.init "F-1" None) (Cal.mkdatetime (Cal.mkdate 2025 1 1) 0)
              ENCAISSEE None None None None None)
       = Lifecycle.init "F-1" None.
  Proof.
    split; [reflexivity|].
    apply (transition_error_leaves_state _ _ _ _ _ _ _ _
             (InvalidTransition DEPOSEE ENCAISSEE ["201"; "209"]%string)).
    reflexivity.
  Defined.

  (** Witness for C3: a fresh manager at PRISE_EN_CHARGE and a reason. *)
Lemma refused_requires_reason_witness :
    status (mkManager "F-1" PRISE_EN_CHARGE []) = PRISE_EN_CHARGE
    /\ "prix incorrect"%string <> ""%string
    /\ (transition (mkManager "F-1" PRISE_EN_CHARGE []) (Cal.mkdatetime (Cal.mkdate 2025 1 1) 0)
          REFUSEE None None None None None
        = (inl (MissingReason REFUSEE), mkManager "F-1" PRISE_EN_CHARGE [])
        /\ exists ev,
             transition (mkManager "F-1" PRISE_EN_CHARGE [])
               (Cal.mkdatetime (Cal.mkdate 2025 1 1) 0) REFUSEE (Some "prix incorrect"%string)
               None None None None
             = (inr ev, mkManager "F-1" REFUSEE ([] ++ [ev]))
             /\ ev_reason ev = Some "prix incorrect"%string /\ ev_status ev = REFUSEE).
  Proof.
    split; [reflexivity|]; split; [discriminate|].
    apply (refused_requires_reason (mkManager "F-1" PRISE_EN_CHARGE [])); [reflexivity | discriminate].
  Defined.

End LifecycleFacts.

(* ================================================================== *)
(** * E-reporting properties *)

Module EReportingFacts.
  Import Enums EReporting SpecText MoreViews.

Lemma add_zero_coef (a b : Dec.decimal) :
    Dec.coef a = 0%N -> Dec.coef b = 0%N ->
    exists c, Dec.add a b = Some c /\ Dec.coef c = 0%N.
  Proof.
    intros Ha Hb; unfold Dec.add; rewrite Ha, Hb; simpl.
    eexists; split; reflexivity.
  Qed.

Lemma sum_zero_coef (l : list Dec.decimal) : forall acc,
    Dec.coef acc = 0%N -> Forall (fun d => Dec.coef d = 0%N) l ->
    exists c, fold_left (fun acc x => match acc with Some s => Dec.add s x | None => None end)
                l (Some acc) = Some c
              /\ Dec.coef c = 0%N.
  Proof.
    induction l as [|x l IH]; intros acc Hacc Hl; simpl; [eauto|].
    inversion Hl; subst.
    destruct (add_zero_coef acc x Hacc ltac:(assumption)) as [c [-> Hc]].
    apply IH; assumption.
  Qed.

Lemma eqb_zero_scaled (d : Dec.decimal) (e : Z) :
    e <= Dec.exp d -> Dec.eqb d (Dec.of_Z 0) = Z.eqb (Dec.scaled d e) 0.
  Proof.
    intros He; unfold Dec.eqb, Dec.compare, Dec.scaled; cbn [Dec.signed Dec.of_Z Dec.coef Dec.sign Dec.exp].
    rewrite Z.mul_0_l.
    assert (P1 : 0 < 10 ^ (Dec.exp d - Z.min (Dec.exp d) 0)) by (apply Z.pow_pos_nonneg; lia).
    assert (P2 : 0 < 10 ^ (Dec.exp d - e)) by (apply Z.pow_pos_nonneg; lia).
    destruct (Z.eqb_spec (Dec.signed d) 0) as [Hz | Hz].
    - rewrite Hz; reflexivity.
    - destruct (Z.eqb_spec (Dec.signed d * 10 ^ (Dec.exp d - e)) 0) as [H | _];
        [apply Z.mul_eq_0 in H; lia|].
      destruct (Z.compare_spec (Dec.signed d * 10 ^ (Dec.exp d - Z.min (Dec.exp d) 0)) 0)
        as [H | H | H]; [apply Z.mul_eq_0 in H; lia | reflexivity | reflexivity].
  Qed.

Lemma zero_coef_eqb (d : Dec.decimal) :
    Dec.coef d = 0%N -> Dec.eqb d (Dec.of_Z 0) = true.
  Proof.
    intros H; rewrite (eqb_zero_scaled d (Dec.exp d)) by lia.
    unfold Dec.scaled, Dec.signed; rewrite H; destruct (Dec.sign d); reflexivity.
  Qed.











  (** ** C6 *)

  (** C6: an aggregate whose breakdowns all have zero taxable and zero VAT
      amounts makes [validate_aggregated] raise the empty-declaration error
      (not a validation message), and so does aggregating no transaction. *)
Theorem empty_declaration_rejected r agg ps pe :
    Forall (fun tb => Dec.coef (tb_taxable_amount tb) = 0%N
                      /\ Dec.coef (tb_vat_amount tb) = 0%N) (tax_breakdowns agg) ->
    validate_aggregated r agg = inl EReportingEmptyDeclarationError
    /\ aggregate_transactions r [] ps pe = inl EReportingEmptyDeclarationError.
  Proof.
    intros Hz; split; [|reflexivity].
    unfold validate_aggregated.
    destruct (sum_zero_coef (map tb_taxable_amount (tax_breakdowns agg)) (Dec.of_Z 0) eq_refl)
      as [t [Ht Htz]].
    { apply Forall_map; eapply Forall_impl; [|exact Hz]; intros tb [H _]; exact H. }
    destruct (sum_zero_coef (map tb_vat_amount (tax_breakdowns agg)) (Dec.of_Z 0) eq_refl)
      as [v [Hv Hvz]].
    { apply Forall_map; eapply Forall_impl; [|exact Hz]; intros tb [_ H]; exact H. }
    unfold total_excl_tax, total_vat, Dec.sum; rewrite Ht, Hv.
    rewrite !zero_coef_eqb by assumption; reflexivity.
  Qed.

  (** ** C9 *)


  (** ** C10 *)

Lemma siren_set_single (x : string) (ts : list TransactionData) : forall acc,
    acc = [x] -> Forall (fun t => t_seller_siren t = x) ts ->
    fold_left (fun acc t => if existsb (String.eqb (t_seller_siren t)) acc
                            then acc else acc ++ [t_seller_siren t]) ts acc = [x].
  Proof.
    induction ts as [|t ts IH]; intros acc Hacc Hts; simpl; [exact Hacc|].
    apply Forall_cons_iff in Hts; destruct Hts as [Ht Hts]; subst acc.
    rewrite Ht; simpl; rewrite String.eqb_refl; simpl.
    apply IH; [reflexivity | assumption].
  Qed.

  (** C10 (corrected): for a non-empty single-SIREN list, when the
      grouping loop's Decimal additions do not overflow,
      [aggregate_transactions] succeeds and takes the operation category,
      the VAT-on-debits flag (and the SIREN) of the first transaction,
      whatever the others carry; when one of them overflows it raises
      [decimal.Overflow]. *)
Theorem aggregate_takes_first_flags r t ts ps pe :
    Forall (fun t' => t_seller_siren t' = t_seller_siren t) ts ->
    (forall d, group (t :: ts) = Some d ->
       exists agg, aggregate_transactions r (t :: ts) ps pe = inr agg
         /\ a_operation_category agg = t_operation_category t
         /\ a_vat_on_debits agg = t_vat_on_debits t
         /\ a_seller_siren agg = t_seller_siren t)
    /\ (group (t :: ts) = None -> aggregate_transactions r (t :: ts) ps pe = inl DecimalOverflow).
  Proof.
    intros H; unfold aggregate_transactions.
    assert (Hs : siren_set (t :: ts) = [t_seller_siren t]).
    { unfold siren_set; simpl.
      exact (siren_set_single (t_seller_siren t) ts [t_seller_siren t] eq_refl H). }
    rewrite Hs; change (1 <? Z.of_nat (length [t_seller_siren t])) with false; cbv iota beta.
    split.
    - intros d Hd; rewrite Hd.
      eexists; split; [reflexivity | split; [reflexivity | split; reflexivity]].
    - intros Hd; rewrite Hd; reflexivity.
  Qed.

End EReportingFacts.

Module EReportingWitnesses.
  Import Enums EReporting Samples MoreViews EReportingFacts.

  (** Witness for C6: the (0, 0) aggregate and the empty batch. *)
Lemma empty_declaration_rejected_witness :
    validate_aggregated reporter_monthly agg_zero = inl EReportingEmptyDeclarationError
    /\ aggregate_transactions reporter_monthly [] day0 day1
       = inl EReportingEmptyDeclarationError.
  Proof.
    apply empty_declaration_rejected.
    repeat constructor.
  Defined.



  (** Witness for C10: a goods sale without VAT on debits, then a services
      sale with it; their grouping does not overflow, and the aggregate is
      labelled as the first. *)
Lemma aggregate_takes_first_flags_witness :
    group [tx_goods; tx_services] <> None
    /\ (forall d, group [tx_goods; tx_services] = Some d ->
          exists agg, aggregate_transactions reporter_monthly [tx_goods; tx_services] day0 day1
                      = inr agg
            /\ a_operation_category agg = t_operation_category tx_goods
            /\ a_vat_on_debits agg = t_vat_on_debits tx_goods
            /\ a_seller_siren agg = t_seller_siren tx_goods)
    /\ (group [tx_goods; tx_services] = None ->
        aggregate_transactions reporter_monthly [tx_goods; tx_services] day0 day1
        = inl DecimalOverflow).
  Proof.
    split; [vm_compute; discriminate|].
    apply (aggregate_takes_first_flags reporter_monthly tx_goods [tx_services]).
    repeat constructor.
  Defined.

  (** Counterexample to C10 as stated: two sales of one seller at the same
      rate, each of taxable amount 9E+999999; adding them in the grouping
      loop raises [decimal.Overflow]. *)
Lemma aggregate_overflow_counterexample :
    Forall (fun t' => t_seller_siren t' = t_seller_siren tx_huge) [tx_huge]
    /\ aggregate_transactions reporter_monthly [tx_huge; tx_huge] day0 day1
       = inl DecimalOverflow.
  Proof. split; [repeat constructor | vm_compute; reflexivity]. Qed.

  (** ** C5 *)

  (** C5 (code bug): the sort key [rate or Decimal("-1")] sends rate 0 to
      -1 like a missing rate; the exempt group without a rate then sorts
      after the zero-rated group, by the exemption flag. *)
Lemma zero_rate_sorts_like_none :
    sort_key (Some (Dec.of_Z 0), true) = sort_key (None, true)
    /\ exists agg,
         aggregate_transactions reporter_monthly [tx_exempt; tx_zero] day0 day1 = inr agg
         /\ map tb_vat_rate (tax_breakdowns agg) = [Some (Dec.of_Z 0); None].
  Proof.
    split; [reflexivity|].
    eexists; split; [reflexivity|]; reflexivity.
  Qed.

End EReportingWitnesses.

(* ================================================================== *)
(** * Transmission deadlines *)

Module DeadlineFacts.
  Import Enums EReporting SpecText Samples.

Lemma days_in_month_range (y m : Z) : 28 <= Cal.days_in_month y m <= 31.
  Proof.
    unfold Cal.days_in_month.
    destruct (m =? 2); [destruct (Cal.is_leap y) | destruct (_ || _)]; lia.
  Qed.

Lemma valid_date_iff (d : Cal.date) :
    Cal.valid_date d = true <->
    1 <= Cal.year d <= 9999 /\ 1 <= Cal.month d <= 12
    /\ 1 <= Cal.day d <= Cal.days_in_month (Cal.year d) (Cal.month d).
  Proof.
    unfold Cal.valid_date, Cal.MINYEAR, Cal.MAXYEAR.
    rewrite !andb_true_iff, !Z.leb_le; tauto.
  Qed.

Lemma mk_date_some (y m k : Z) :
    1 <= y <= 9999 -> 1 <= m <= 12 -> 1 <= k <= Cal.days_in_month y m ->
    Cal.mk_date y m k = Some (Cal.mkdate y m k).
  Proof.
    intros Hy Hm Hk; unfold Cal.mk_date.
    assert (H : Cal.valid_date (Cal.mkdate y m k) = true)
      by (apply valid_date_iff; simpl; tauto).
    rewrite H; reflexivity.
  Qed.

Lemma date_ltb_same (y m a b : Z) :
    Cal.date_ltb (Cal.mkdate y m a) (Cal.mkdate y m b) = (a <? b).
  Proof.
    unfold Cal.date_ltb; simpl; rewrite !Z.ltb_irrefl, !Z.eqb_refl; reflexivity.
  Qed.

Lemma decadal_matches_spec (d : Cal.date) :
    Cal.valid_date d = true -> d <> Cal.mkdate 9999 12 31 ->
    next_decadal_deadline d = Some (spec_next_deadline d).
  Proof.
    destruct d as [y m dd]; intros Hv Hne.
    apply valid_date_iff in Hv; simpl in Hv; destruct Hv as (Hy & Hm & Hd).
    pose proof (days_in_month_range y m) as Hl.
    unfold next_decadal_deadline, spec_next_deadline; simpl.
    set (L := Cal.days_in_month y m) in *.
    rewrite (mk_date_some y m 10), (mk_date_some y m 20), (mk_date_some y m L) by lia.
    cbn [find filter]; rewrite !date_ltb_same.
    destruct (dd <? 10) eqn:E1; [|destruct (dd <? 20) eqn:E2; [|destruct (dd <? L) eqn:E3]].
    - apply Z.ltb_lt in E1.
      assert (E2 : (dd <? 20) = true) by (apply Z.ltb_lt; lia).
      assert (E3 : (dd <? L) = true) by (apply Z.ltb_lt; lia).
      rewrite E2, E3; simpl; rewrite Z.min_l by lia; reflexivity.
    - apply Z.ltb_lt in E2.
      assert (E3 : (dd <? L) = true) by (apply Z.ltb_lt; lia).
      rewrite E3; simpl; rewrite Z.min_l by lia; reflexivity.
    - reflexivity.
    - apply Z.ltb_ge in E3.
      destruct (m =? 12) eqn:E12.
      + apply Z.eqb_eq in E12; subst m.
        assert (Hy' : y < 9999).
        { destruct (Z.eq_dec y 9999) as [->|]; [|lia].
          exfalso; apply Hne; unfold L in *.
          assert (H31 : Cal.days_in_month 9999 12 = 31) by reflexivity.
          rewrite H31 in *; f_equal; lia. }
        rewrite (mk_date_some (y + 1) 1 10); [reflexivity | lia | lia |].
        pose proof (days_in_month_range (y + 1) 1); lia.
      + apply Z.eqb_neq in E12.
        rewrite (mk_date_some y (m + 1) 10); [reflexivity | lia | lia |].
        pose proof (days_in_month_range y (m + 1)); lia.
  Qed.

  (** ** C7 *)

  (** C7 (counterexample): from 9999-12-31 the roll-over constructs
      [date(10000, 1, 10)], which raises ValueError; no date is returned. *)
Lemma deadline_after_9999_12_31 :
    Cal.valid_date (Cal.mkdate 9999 12 31) = true
    /\ next_transaction_deadline reporter_monthly (Cal.mkdate 9999 12 31) = None.
  Proof. split; reflexivity. Qed.

  (** C7 (amended): for a monthly or quarterly real-normal regime and every
      valid date [d] other than 9999-12-31, the next transaction deadline is
      the earliest of the 10th, the 20th and the last day of [d]'s month
      strictly after [d], or else the 10th of the following month (January
      10 of the next year from December); in particular from day 25 of a
      30-day month it is day 30 of that month. *)
Theorem decadal_deadline_spec r d :
    (vat_regime r = REAL_NORMAL_MONTHLY \/ vat_regime r = REAL_NORMAL_QUARTERLY) ->
    Cal.valid_date d = true -> d <> Cal.mkdate 9999 12 31 ->
    next_transaction_deadline r d = Some (spec_next_deadline d)
    /\ (Cal.days_in_month (Cal.year d) (Cal.month d) = 30 -> Cal.day d = 25 ->
        next_transaction_deadline r d = Some (Cal.mkdate (Cal.year d) (Cal.month d) 30)).
  Proof.
    intros Hr Hv Hne.
    assert (Hn : next_transaction_deadline r d = next_decadal_deadline d)
      by (unfold next_transaction_deadline; destruct Hr as [H|H]; rewrite H; reflexivity).
    rewrite Hn, (decadal_matches_spec d Hv Hne); split; [reflexivity|].
    intros H30 H25; unfold spec_next_deadline; rewrite H30, H25; reflexivity.
  Qed.

  (** Witness for C7: 2025-06-25 under the monthly regime. *)
Lemma decadal_deadline_spec_witness :
    next_transaction_deadline reporter_monthly (Cal.mkdate 2025 6 25)
      = Some (spec_next_deadline (Cal.mkdate 2025 6 25))
    /\ (Cal.days_in_month 2025 6 = 30 -> 25 = 25 ->
        next_transaction_deadline reporter_monthly (Cal.mkdate 2025 6 25)
        = Some (Cal.mkdate 2025 6 30)).
  Proof.
    apply (decadal_deadline_spec reporter_monthly (Cal.mkdate 2025 6 25));
      [left; reflexivity | reflexivity | discriminate].
  Defined.

End DeadlineFacts.

(* ================================================================== *)
(** * The CDAR codec *)

Module DecStrFacts.
  Import Dec DecStr CodecViews.
  Local Open Scope string_scope.



Lemma list_ascii_app (s t : string) :
    list_ascii_of_string (s ++ t) = (list_ascii_of_string s ++ list_ascii_of_string t)%list.
  Proof. induction s as [|c s IH]; simpl; [reflexivity | now rewrite IH]. Qed.

Lemma all_chars_app p s t : all_chars p (s ++ t) = all_chars p s && all_chars p t.
  Proof. unfold all_chars; rewrite list_ascii_app, forallb_app; reflexivity. Qed.

Lemma all_chars_impl (p q : ascii -> bool) s :
    (forall c, p c = true -> q c = true) -> all_chars p s = true -> all_chars q s = true.
  Proof.
    intros Hpq; unfold all_chars; induction s as [|c s IH]; simpl; [reflexivity|].
    rewrite !andb_true_iff; intros [Hc Hs]; split; auto.
  Qed.

Lemma forallb_rev {A} (p : A -> bool) l : forallb p (rev l) = forallb p l.
  Proof.
    induction l as [|x l IH]; simpl; [reflexivity|].
    rewrite forallb_app, IH; simpl; rewrite andb_true_r, andb_comm; reflexivity.
  Qed.

Lemma all_chars_rev p s : all_chars p (rev_string s) = all_chars p s.
  Proof.
    unfold all_chars, rev_string; rewrite list_ascii_of_string_of_list_ascii, forallb_rev;
      reflexivity.
  Qed.

Lemma rev_string_involutive s : rev_string (rev_string s) = s.
  Proof.
    unfold rev_string; rewrite list_ascii_of_string_of_list_ascii, rev_involutive,
      string_of_list_ascii_of_string; reflexivity.
  Qed.

Lemma plain_not_space c : plain c = true -> negb (is_space c) = true.
  Proof. destruct c as [[] [] [] [] [] [] [] []]; intros H; try discriminate H; reflexivity. Qed.

Lemma plain_not_underscore c : plain c = true -> negb (Ascii.eqb c "_"%char) = true.
  Proof. destruct c as [[] [] [] [] [] [] [] []]; intros H; try discriminate H; reflexivity. Qed.

Lemma digit_plain c : is_digit c = true -> plain c = true.
  Proof. unfold plain; intros ->; reflexivity. Qed.

Lemma is_digit_cases c : is_digit c = true ->
    c = "0"%char \/ c = "1"%char \/ c = "2"%char \/ c = "3"%char \/ c = "4"%char
    \/ c = "5"%char \/ c = "6"%char \/ c = "7"%char \/ c = "8"%char \/ c = "9"%char.
  Proof.
    destruct c as [[] [] [] [] [] [] [] []]; intros H; try discriminate H;
      repeat (left; reflexivity) || right; reflexivity.
  Qed.

Lemma strip_left_id s : all_chars (fun c => negb (is_space c)) s = true -> strip_left s = s.
  Proof.
    destruct s as [|c s]; [reflexivity|]; unfold all_chars; simpl.
    rewrite andb_true_iff, negb_true_iff; intros [-> _]; reflexivity.
  Qed.

Lemma strip_id s : all_chars (fun c => negb (is_space c)) s = true -> strip s = s.
  Proof.
    intros H; unfold strip; rewrite (strip_left_id s H), strip_left_id, rev_string_involutive;
      [reflexivity|]; rewrite all_chars_rev; exact H.
  Qed.

Lemma remove_underscores_id s :
    all_chars (fun c => negb (Ascii.eqb c "_"%char)) s = true -> remove_underscores s = s.
  Proof.
    unfold all_chars; induction s as [|c s IH]; simpl; [reflexivity|].
    rewrite andb_true_iff, negb_true_iff; intros [-> Hs]; rewrite IH; auto.
  Qed.

Lemma uint_of_string_of_uint u : uint_of_string (string_of_uint u) = Some u.
  Proof. induction u; simpl; rewrite ?IHu; reflexivity. Qed.

Lemma string_of_uint_digits u : all_chars is_digit (string_of_uint u) = true.
  Proof. unfold all_chars; induction u; simpl; auto. Qed.

Lemma zeros_digits k : all_chars is_digit (zeros k) = true.
  Proof. unfold all_chars; induction k; simpl; auto. Qed.

Lemma zeros_length k : String.length (zeros k) = k.
  Proof. induction k; simpl; auto. Qed.

Lemma length_app s t : String.length (s ++ t) = (String.length s + String.length t)%nat.
  Proof. induction s; simpl; auto. Qed.

Lemma uint_of_string_zeros k s u :
    uint_of_string s = Some u ->
    exists u', uint_of_string (zeros k ++ s) = Some u' /\ N.of_uint u' = N.of_uint u.
  Proof.
    intros Hs; induction k as [|k IH]; simpl; [exists u; auto|].
    destruct IH as (u' & -> & Hu'); exists (Decimal.D0 u'); split; [reflexivity | exact Hu'].
  Qed.

Lemma to_uint_nonnil n : N.to_uint n <> Decimal.Nil.
  Proof. destruct n as [|p]; [discriminate | apply DecimalPos.Unsigned.to_uint_nonnil]. Qed.

Lemma coef_string_facts c :
    all_chars is_digit (string_of_uint (N.to_uint c)) = true
    /\ string_of_uint (N.to_uint c) <> ""
    /\ uint_of_string (string_of_uint (N.to_uint c)) = Some (N.to_uint c).
  Proof.
    split; [apply string_of_uint_digits|split; [|apply uint_of_string_of_uint]].
    pose proof (to_uint_nonnil c) as H; destruct (N.to_uint c); simpl; congruence.
  Qed.

Lemma scan_digits_app a b : all_chars is_digit a = true ->
    scan_digits (a ++ b) = let '(ds, r) := scan_digits b in (a ++ ds, r).
  Proof.
    unfold all_chars; induction a as [|c a IH]; simpl; intros H.
    - destruct (scan_digits b); reflexivity.
    - apply andb_true_iff in H as [Hc H]; rewrite Hc, (IH H); destruct (scan_digits b); reflexivity.
  Qed.

Lemma substring_full s : substring 0 (String.length s) s = s.
  Proof. induction s; simpl; congruence. Qed.

Lemma substring_split k s : (k <= String.length s)%nat ->
    substring 0 k s ++ substring k (String.length s - k) s = s.
  Proof.
    revert k; induction s as [|c s IH]; intros k Hk; destruct k as [|k]; simpl in *.
    - reflexivity.
    - lia.
    - now rewrite substring_full.
    - f_equal; apply IH; lia.
  Qed.

Lemma substring_length k m s : (k + m <= String.length s)%nat ->
    String.length (substring k m s) = m.
  Proof.
    revert k m; induction s as [|c s IH]; intros k m H; destruct k as [|k], m as [|m];
      simpl in *; try lia; first [reflexivity | f_equal; apply (IH 0%nat); lia | apply IH; lia].
  Qed.

Lemma append_empty s : s ++ "" = s.
  Proof. induction s; simpl; congruence. Qed.

Lemma parse_exponent_E x : parse_exponent (String "E"%char (exp_string x)) = Some x.
  Proof.
    destruct (coef_string_facts (Z.abs_N x)) as (Hd & Hne & Hu).
    unfold parse_exponent, exp_string; cbn [Ascii.eqb orb].
    set (r := string_of_uint (N.to_uint (Z.abs_N x))) in *.
    assert (Hscan : scan_digits r = (r, "")).
    { rewrite <- (append_empty r) at 1; rewrite (scan_digits_app r "" Hd); cbn [scan_digits];
        rewrite append_empty; reflexivity. }
    clearbody r.
    destruct (x <? 0)%Z eqn:Hx; simpl; rewrite Hscan;
      (destruct r as [|c r']; [congruence|]); rewrite Hu, DecimalN.Unsigned.of_to, Z_of_N_abs;
      f_equal; [apply Z.ltb_lt in Hx | apply Z.ltb_ge in Hx]; lia.
  Qed.

Lemma scan_digits_cons_app c a b : is_digit c = true -> all_chars is_digit a = true ->
    scan_digits (String c (a ++ b)) = let '(ds, r) := scan_digits b in (String c (a ++ ds), r).
  Proof.
    intros Hc Ha; simpl; rewrite Hc, (scan_digits_app a b Ha); destruct (scan_digits b); reflexivity.
  Qed.

Lemma all_chars_cons p c s : all_chars p (String c s) = p c && all_chars p s.
  Proof. reflexivity. Qed.

Lemma digits_plain s : all_chars is_digit s = true -> all_chars plain s = true.
  Proof. apply all_chars_impl, digit_plain. Qed.

Lemma exp_plain y : all_chars plain (String "E"%char (exp_string y)) = true.
  Proof.
    unfold exp_string; rewrite !all_chars_cons, digits_plain by apply string_of_uint_digits.
    destruct (y <? 0)%Z; reflexivity.
  Qed.

Lemma parse_form (sg : bool) (ip rest fp es : string) (x : Z) (u : Decimal.uint) :
    all_chars is_digit ip = true -> ip <> "" -> all_chars is_digit fp = true ->
    (fp = "" /\ rest = "" \/ rest = String "."%char fp) ->
    (es = "" /\ x = 0 \/ exists y, es = String "E"%char (exp_string y) /\ x = y) ->
    uint_of_string (ip ++ fp) = Some u ->
    of_string ((if sg then String "-"%char "" else "") ++ ip ++ rest ++ es)
    = Some (mkdec sg (N.of_uint u) (x - Z.of_nat (String.length fp))).
  Proof.
    intros Hip Hne Hfp Hrest Hes Hu.
    assert (Hpl : all_chars plain ((if sg then String "-"%char "" else "") ++ ip ++ rest ++ es) = true).
    { rewrite !all_chars_app, (digits_plain ip Hip).
      assert (Hr : all_chars plain rest = true)
        by (destruct Hrest as [[_ ->] | ->]; [reflexivity | exact (digits_plain _ Hfp)]).
      assert (He : all_chars plain es = true)
        by (destruct Hes as [[-> _] | (y & -> & _)]; [reflexivity | apply exp_plain]).
      rewrite Hr, He; destruct sg; reflexivity. }
    assert (Hpe : parse_exponent es = Some x)
      by (destruct Hes as [[-> ->] | (y & -> & ->)]; [reflexivity | apply parse_exponent_E]).
    assert (Hse : scan_digits es = ("", es))
      by (destruct Hes as [[-> _] | (y & -> & _)]; reflexivity).
    unfold of_string.
    rewrite strip_id by exact (all_chars_impl _ _ _ plain_not_space Hpl).
    rewrite remove_underscores_id by exact (all_chars_impl _ _ _ plain_not_underscore Hpl).
    clear Hpl.
    destruct ip as [|c ip']; [congruence|]; clear Hne.
    rewrite all_chars_cons in Hip; apply andb_true_iff in Hip as [Hc Hip'].
    destruct Hrest as [[-> ->] | ->]; destruct Hes as [[-> ->] | (y & -> & ->)];
      destruct sg; destruct (is_digit_cases c Hc) as [-> | [-> | [-> | [-> | [-> | [-> | [-> | [-> | [-> | ->]]]]]]]]];
      cbn -[parse_exponent uint_of_string scan_digits];
      rewrite scan_digits_cons_app by assumption; rewrite ?Hse;
      cbn -[parse_exponent uint_of_string exp_string].
    all: try (change (is_digit "."%char) with false; cbn -[parse_exponent uint_of_string exp_string];
              rewrite (scan_digits_app fp _ Hfp), Hse; cbn -[parse_exponent uint_of_string exp_string]).
    all: rewrite ?Hpe, ?parse_exponent_E; rewrite ?append_empty in *; cbn [append] in Hu.
    all: rewrite Hu; do 2 f_equal; lia.
  Qed.

Lemma append_assoc_s a b c : (a ++ b) ++ c = a ++ b ++ c.
  Proof. induction a; simpl; congruence. Qed.

Lemma e_part_shape (a b : Z) :
    ((if (a =? b)%Z then "" else String "E"%char (exp_string (a - b))) = "" /\ a - b = 0)
    \/ exists y, (if (a =? b)%Z then "" else String "E"%char (exp_string (a - b)))
                 = String "E"%char (exp_string y) /\ a - b = y.
  Proof.
    destruct (a =? b)%Z eqn:H; [left; apply Z.eqb_eq in H; split; [reflexivity | lia] | right; eauto].
  Qed.

Lemma digits_split s k : (k <= String.length s)%nat -> all_chars is_digit s = true ->
    all_chars is_digit (substring 0 k s) = true
    /\ all_chars is_digit (substring k (String.length s - k) s) = true.
  Proof.
    intros Hk Hs; rewrite <- (substring_split k s Hk), all_chars_app in Hs.
    apply andb_true_iff in Hs; exact Hs.
  Qed.

Lemma of_string_to_string (d : decimal) : of_string (to_string d) = Some d.
  Proof.
    destruct d as [sg c e].
    destruct (coef_string_facts c) as (Hd & Hne & Hu).
    unfold to_string, coef_string; cbn [sign coef exp]; cbv zeta.
    set (s := string_of_uint (N.to_uint c)) in *; clearbody s.
    assert (Hn : (1 <= String.length s)%nat) by (destruct s; [congruence | simpl; lia]).
    set (n := Z.of_nat (String.length s)) in *.
    assert (Hn' : 1 <= n) by lia.
    destruct ((e <=? 0) && (-6 <? e + n))%Z eqn:Hdp.
    - apply andb_true_iff in Hdp as [H1 H2]; apply Z.leb_le in H1; apply Z.ltb_lt in H2.
      destruct (e + n <=? 0)%Z eqn:H0.
      + apply Z.leb_le in H0.
        set (k := Z.to_nat (- (e + n))).
        assert (Hkz : Z.of_nat k = - (e + n)) by (apply Z2Nat.id; lia).
        clearbody k.
        destruct (uint_of_string_zeros k s _ Hu) as (u' & Hu' & Hv).
        transitivity (of_string ((if sg then String "-"%char "" else "") ++ String "0"%char ""
                                 ++ String "."%char (zeros k ++ s) ++ "")).
        { cbv beta iota; rewrite Z.eqb_refl; cbn [zeros]; rewrite !append_empty; reflexivity. }
        rewrite (parse_form sg (String "0"%char "") _ (zeros k ++ s) "" 0 (Decimal.D0 u'));
          [| reflexivity | discriminate | rewrite all_chars_app, zeros_digits; exact Hd
           | right; reflexivity | left; split; reflexivity
           | cbn [append]; change (uint_of_string (String "0"%char (zeros k ++ s)))
               with (match uint_of_string (zeros k ++ s) with
                     | Some u => push_digit "0"%char u | None => None end);
             rewrite Hu'; reflexivity].
        change (N.of_uint (Decimal.D0 u')) with (N.of_uint u').
        rewrite Hv, DecimalN.Unsigned.of_to, length_app, zeros_length; repeat f_equal.
        unfold n in *; lia.
      + apply Z.leb_gt in H0.
        destruct (n <=? e + n)%Z eqn:H3.
        * apply Z.leb_le in H3.
          replace (Z.to_nat (e + n - n)) with 0%nat by lia.
          transitivity (of_string ((if sg then String "-"%char "" else "") ++ s ++ "" ++ "")).
          { cbv beta iota; rewrite Z.eqb_refl; cbn [zeros]; rewrite !append_empty; reflexivity. }
          rewrite (parse_form sg s "" "" "" 0 (N.to_uint c) Hd Hne eq_refl
                     (or_introl (conj eq_refl eq_refl)) (or_introl (conj eq_refl eq_refl)));
            [| rewrite append_empty; exact Hu].
          rewrite DecimalN.Unsigned.of_to; repeat f_equal; simpl; lia.
        * apply Z.leb_gt in H3.
          cbv beta iota; set (dp := Z.to_nat (e + n)).
          assert (Hdpz : Z.of_nat dp = e + n) by (apply Z2Nat.id; lia).
          assert (Hdp : (dp <= String.length s)%nat) by (unfold n in *; lia).
          replace (Z.to_nat (n - (e + n))) with (String.length s - dp)%nat
            by (apply Nat2Z.inj; rewrite Nat2Z.inj_sub, Z2Nat.id by (unfold n in *; lia);
                unfold n in *; lia).
          destruct (digits_split s dp Hdp Hd) as [Hd1 Hd2].
          transitivity (of_string ((if sg then String "-"%char "" else "") ++ substring 0 dp s
                                   ++ String "."%char (substring dp (String.length s - dp) s) ++ "")).
          { cbv beta iota; rewrite Z.eqb_refl; cbn [zeros]; rewrite !append_empty; reflexivity. }
          rewrite (parse_form sg _ _ (substring dp (String.length s - dp) s) "" 0 (N.to_uint c) Hd1);
            [| | exact Hd2 | right; reflexivity | left; split; reflexivity
             | rewrite substring_split by exact Hdp; exact Hu].
          -- rewrite DecimalN.Unsigned.of_to, substring_length by lia; repeat f_equal.
             unfold n in *; lia.
          -- intros Hem; assert (Hl := substring_length 0 dp s ltac:(lia)).
             rewrite Hem in Hl; simpl in Hl; unfold n in *; lia.
    - change ((1 <=? 0)%Z) with false; change (Z.to_nat 1) with 1%nat; cbv beta iota.
      set (es := if (e + n =? 1)%Z then "" else String "E"%char (exp_string (e + n - 1))).
      assert (Hes : (es = "" /\ e + n - 1 = 0)
                    \/ exists y, es = String "E"%char (exp_string y) /\ e + n - 1 = y)
        by apply e_part_shape.
      clearbody es.
      destruct (n <=? 1)%Z eqn:H3.
      + apply Z.leb_le in H3.
        replace (Z.to_nat (1 - n)) with 0%nat by lia.
        transitivity (of_string ((if sg then String "-"%char "" else "") ++ s ++ "" ++ es)).
        { cbn [zeros]; rewrite append_empty; reflexivity. }
        rewrite (parse_form sg s "" "" es (e + n - 1) (N.to_uint c) Hd Hne eq_refl
                   (or_introl (conj eq_refl eq_refl)) Hes)
          by (rewrite append_empty; exact Hu).
        rewrite DecimalN.Unsigned.of_to; repeat f_equal; simpl; unfold n in *; lia.
      + apply Z.leb_gt in H3.
        replace (Z.to_nat (n - 1)) with (String.length s - 1)%nat
          by (apply Nat2Z.inj; rewrite Nat2Z.inj_sub, Z2Nat.id by (unfold n in *; lia);
              unfold n in *; lia).
        destruct (digits_split s 1 Hn Hd) as [Hd1 Hd2].
        transitivity (of_string ((if sg then String "-"%char "" else "") ++ substring 0 1 s
                                 ++ String "."%char (substring 1 (String.length s - 1) s) ++ es)).
        { rewrite append_assoc_s; reflexivity. }
        rewrite (parse_form sg _ _ (substring 1 (String.length s - 1) s) es (e + n - 1)
                   (N.to_uint c) Hd1);
          [| | exact Hd2 | right; reflexivity | exact Hes
           | rewrite substring_split by exact Hn; exact Hu].
        * rewrite DecimalN.Unsigned.of_to, substring_length by lia; repeat f_equal.
          unfold n in *; lia.
        * intros Hem; assert (Hl := substring_length 0 1 s ltac:(lia)).
          rewrite Hem in Hl; discriminate Hl.
  Qed.
End DecStrFacts.

Module CDARFacts.
  Import Enums CDAR CodecViews.
  Local Open Scope string_scope.


Lemma strptime_ymd_digits y1 y2 y3 y4 r :
    forallb DecStr.is_digit [y1; y2; y3; y4] = true ->
    strptime_ymd (String y1 (String y2 (String y3 (String y4 r)))) =
    match md_of r with
    | Some (mo, dd, EmptyString) =>
        match Cal.mk_date (1000 * dval y1 + 100 * dval y2 + 10 * dval y3 + dval y4) mo dd with
        | Some dt => Some (Cal.mkdatetime dt 0)
        | None => None
        end
    | _ => None
    end.
  Proof. intros H; unfold strptime_ymd; rewrite H; reflexivity. Qed.

Lemma digit_char_ok k : 0 <= k <= 9 ->
    DecStr.is_digit (digit_char k) = true /\ dval (digit_char k) = k.
  Proof.
    intros Hk; assert (Hk' : k = 0 \/ k = 1 \/ k = 2 \/ k = 3 \/ k = 4 \/ k = 5 \/ k = 6
                             \/ k = 7 \/ k = 8 \/ k = 9) by lia.
    repeat destruct Hk' as [-> | Hk']; try subst k; split; reflexivity.
  Qed.

Lemma Z_enum (lo : Z) (n : nat) (m : Z) : lo <= m < lo + Z.of_nat n ->
    exists k, (k < n)%nat /\ m = lo + Z.of_nat k.
  Proof. intros H; exists (Z.to_nat (m - lo)); split; lia. Qed.

Lemma md_of_fixed m d : 1 <= m <= 12 -> 1 <= d <= 31 ->
    md_of (fixed_digits 2 m ++ fixed_digits 2 d) = Some (m, d, "").
  Proof.
    intros Hm Hd.
    destruct (Z_enum 1 12 m ltac:(lia)) as (i & Hi & ->).
    destruct (Z_enum 1 31 d ltac:(lia)) as (j & Hj & ->).
    clear Hm Hd.
    do 12 (destruct i as [|i]; [ do 31 (destruct j as [|j]; [reflexivity|]); lia |]); lia.
  Qed.

Lemma year_digits y : 0 <= y <= 9999 ->
    1000 * ((y / 10 ^ 3) mod 10) + 100 * ((y / 10 ^ 2) mod 10) + 10 * ((y / 10 ^ 1) mod 10)
    + (y / 10 ^ 0) mod 10 = y.
  Proof.
    intros Hy.
    change (10 ^ 3) with 1000; change (10 ^ 2) with 100; change (10 ^ 1) with 10;
      change (10 ^ 0) with 1.
    rewrite Z.div_1_r.
    assert (H100 : y / 100 = y / 10 / 10) by (rewrite Z.div_div by lia; reflexivity).
    assert (H1000 : y / 1000 = y / 10 / 10 / 10) by (rewrite !Z.div_div by lia; reflexivity).
    rewrite H100, H1000.
    set (a := y / 10); set (b := a / 10); set (c := b / 10).
    pose proof (Z.div_mod y 10 ltac:(lia)); pose proof (Z.div_mod a 10 ltac:(lia));
      pose proof (Z.div_mod b 10 ltac:(lia)).
    pose proof (Z.mod_pos_bound y 10 ltac:(lia)); pose proof (Z.mod_pos_bound a 10 ltac:(lia));
      pose proof (Z.mod_pos_bound b 10 ltac:(lia)).
    idtac.
    assert (Hc : 0 <= c < 10).
    { unfold c, b, a; rewrite <- H1000; split; [apply Z.div_pos | apply Z.div_lt_upper_bound]; lia. }
    rewrite (Z.mod_small c 10 Hc); lia.
  Qed.

Lemma digit_at y k : DecStr.is_digit (digit_char ((y / 10 ^ k) mod 10)) = true
    /\ dval (digit_char ((y / 10 ^ k) mod 10)) = (y / 10 ^ k) mod 10.
  Proof. apply digit_char_ok; pose proof (Z.mod_pos_bound (y / 10 ^ k) 10); lia. Qed.

Lemma strptime_strftime dt :
    Cal.valid_date (Cal.dt_date dt) = true -> 1000 <= Cal.year (Cal.dt_date dt) ->
    strptime_ymd (strftime_ymd dt) = Some (Cal.mkdatetime (Cal.dt_date dt) 0).
  Proof.
    destruct dt as [[y m d] us]; intros Hv H1000; simpl in H1000.
    apply DeadlineFacts.valid_date_iff in Hv; simpl in Hv; destruct Hv as (Hy & Hm & Hd).
    pose proof (DeadlineFacts.days_in_month_range y m).
    unfold strftime_ymd; cbn [Cal.dt_date Cal.year Cal.month Cal.day].
    replace (y <? 10)%Z with false by (symmetry; apply Z.ltb_ge; lia).
    replace (y <? 100)%Z with false by (symmetry; apply Z.ltb_ge; lia).
    replace (y <? 1000)%Z with false by (symmetry; apply Z.ltb_ge; lia).
    change (fixed_digits 4 y) with
      (String (digit_char ((y / 10 ^ 3) mod 10)) (String (digit_char ((y / 10 ^ 2) mod 10))
        (String (digit_char ((y / 10 ^ 1) mod 10)) (String (digit_char ((y / 10 ^ 0) mod 10)) "")))).
    cbn [append].
    destruct (digit_at y 3) as [D3 V3]; destruct (digit_at y 2) as [D2 V2];
      destruct (digit_at y 1) as [D1 V1]; destruct (digit_at y 0) as [D0 V0].
    rewrite strptime_ymd_digits by (cbn [forallb]; rewrite D3, D2, D1, D0; reflexivity).
    rewrite md_of_fixed by lia.
    rewrite V3, V2, V1, V0, year_digits by lia.
    rewrite DeadlineFacts.mk_date_some by lia; reflexivity.
  Qed.



Lemma checked_ok s : xml_compatible s = true -> checked s = Some s.
  Proof. unfold checked; intros ->; reflexivity. Qed.

Lemma build_party_ok tag p : party_ok p = true -> build_party tag p = Some (party_node tag p).
  Proof.
    unfold party_ok, build_party; rewrite andb_true_iff; intros [H1 H2].
    rewrite (checked_ok _ H1), (checked_ok _ H2); reflexivity.
  Qed.

Lemma map_option_build tag l : forallb party_ok l = true ->
    map_option (build_party tag) l = Some (map (party_node tag) l).
  Proof.
    induction l as [|p l IH]; [reflexivity|]; cbn [forallb]; rewrite andb_true_iff.
    intros [Hp Hl]; cbn [map_option map]; rewrite (build_party_ok tag p Hp), (IH Hl); reflexivity.
  Qed.

Lemma parse_reparse_party k tag p : parse_party (reparse k (party_node tag p)) = Some p.
  Proof. destruct p as [id sid rc]; destruct rc, id; reflexivity. Qed.

Lemma sender_shape k tag p : exists a x ch,
    reparse k (party_node tag p) = Elem tag a x ch /\ parse_party (Elem tag a x ch) = Some p.
  Proof. do 3 eexists; split; [reflexivity | exact (parse_reparse_party k tag p)]. Qed.

Lemma filter_parties k tag t l :
    filter (fun c => String.eqb (tag_of c) t) (map (reparse k) (map (party_node tag) l))
    = if String.eqb tag t then map (reparse k) (map (party_node tag) l) else [].
  Proof.
    induction l as [|p l IH]; cbn [map filter]; [destruct (String.eqb tag t); reflexivity|].
    rewrite IH; change (tag_of (reparse k (party_node tag p))) with tag.
    destruct (String.eqb tag t); reflexivity.
  Qed.

Lemma map_option_parse_parties k tag l :
    map_option parse_party (map (reparse k) (map (party_node tag) l)) = Some l.
  Proof.
    induction l as [|p l IH]; [reflexivity|]; cbn [map map_option].
    rewrite parse_reparse_party, IH; reflexivity.
  Qed.

Lemma nonempty_shape (s : string) : s <> "" -> exists c r, s = String c r.
  Proof. destruct s as [|c r]; [congruence | eauto]. Qed.

Lemma status_value_nonempty st : status_value st <> "".
  Proof. destruct st; discriminate. Qed.

Lemma status_of_value_value st : status_of_value (status_value st) = Some st.
  Proof. destruct st; reflexivity. Qed.

Lemma strftime_nonempty dt : strftime_ymd dt <> "".
  Proof.
    unfold strftime_ymd.
    destruct (_ <? 10)%Z; [|destruct (_ <? 100)%Z; [|destruct (_ <? 1000)%Z]]; simpl; discriminate.
  Qed.

Lemma to_string_nonempty d : DecStr.to_string d <> "".
  Proof.
    intros H; pose proof (DecStrFacts.of_string_to_string d) as E; rewrite H in E.
    discriminate E.
  Qed.


  (** ** C4 *)

End CDARFacts.

Module CDARWitnesses.
  Import Enums CDAR CodecViews CDARSamples.
  Local Open Scope string_scope.



End CDARWitnesses.

(* ================================================================== *)
(** * Further properties of the code *)

(** ** The lifecycle manager (lifecycle/manager.py) *)

Module LifecycleMore.
  Import Enums Lifecycle LifecycleRun LifecycleFacts MoreViews.

Lemma is_terminal_iff m : is_terminal m = true <-> targets_of (status m) = [].
Proof. destruct m as [ref s h]; destruct s; simpl; split; intros H; try reflexivity; discriminate. Qed.

  (** X2: once a manager is terminal, every [transition] call fails with the
      invalid-transition error, listing no allowed target, and leaves the
      manager unchanged; any sequence of calls then returns no event and keeps
      the manager. *)
Theorem terminal_absorbing m :
    is_terminal m = true ->
    (forall now t r rc p a ts,
        transition m now t r rc p a ts = (inl (InvalidTransition (status m) t []), m))
    /\ (forall cs, run m cs = (m, O)).
Proof.
  intros Ht; apply is_terminal_iff in Ht.
  assert (H1 : forall now t r rc p a ts,
             transition m now t r rc p a ts = (inl (InvalidTransition (status m) t []), m)).
  { intros; unfold transition, can_transition; rewrite Ht; reflexivity. }
  split; [exact H1|].
  induction cs as [|c cs IH]; [reflexivity|].
  simpl; unfold apply_call; rewrite H1, IH; reflexivity.
Qed.

Lemma last_cons_default {A} (l : list A) (i a b : A) : last (i :: l) a = last (i :: l) b.
Proof. revert i; induction l as [|j l IH]; intros i; [reflexivity|]; exact (IH j). Qed.

Lemma is_walk_app s l t :
    is_walk s (l ++ [t]) = is_walk s l && existsb (status_eqb t) (targets_of (last l s)).
Proof.
  revert s; induction l as [|x l IH]; intros s; simpl.
  - rewrite !andb_true_r; reflexivity.
  - rewrite IH, andb_assoc; destruct l as [|i l]; [reflexivity|].
    rewrite (last_cons_default l i x s); reflexivity.
Qed.

Lemma last_app_single {A} (l : list A) (t d : A) : last (l ++ [t]) d = t.
Proof. induction l as [|x l IH]; [reflexivity|]; simpl; rewrite IH; destruct l; reflexivity. Qed.

Lemma in_targets_existsb t s : In t (targets_of s) -> existsb (status_eqb t) (targets_of s) = true.
Proof. intros H; apply existsb_exists; exists t; split; [exact H | apply status_eqb_spec; reflexivity]. Qed.

Lemma run_walk cs : forall m s0,
    is_walk s0 (map ev_status (history m)) = true ->
    last (map ev_status (history m)) s0 = status m ->
    is_walk s0 (map ev_status (history (fst (run m cs)))) = true
    /\ last (map ev_status (history (fst (run m cs)))) s0 = status (fst (run m cs)).
Proof.
  induction cs as [|c cs IH]; intros m s0 Hw Hl; simpl; [tauto|].
  unfold apply_call.
  destruct (transition_cases m (c_now c) (c_target c) (c_reason c) (c_reason_code c)
              (c_producer c) (c_amount c) (c_timestamp c))
    as [[e H] | [ev [H [Hst Hin]]]]; rewrite H.
  - destruct (run m cs) as [mf k] eqn:Hr; specialize (IH m s0 Hw Hl); rewrite Hr in IH; exact IH.
  - set (m' := mkManager (invoice_reference m) (c_target c) (history m ++ [ev])).
    destruct (run m' cs) as [mf k] eqn:Hr.
    specialize (IH m' s0); rewrite Hr in IH; apply IH; unfold m'; simpl;
      rewrite map_app; simpl.
    + rewrite is_walk_app, Hw, Hl, Hst; simpl; apply in_targets_existsb; exact Hin.
    + rewrite last_app_single; exact Hst.
Qed.

  (** X3: after any sequence of calls on a fresh manager, the statuses of the
      history form a path of [TRANSITIONS] from the initial status, ending at
      the current status. *)
Theorem history_is_walk ref init cs :
    let m := fst (run (Lifecycle.init ref init) cs) in
    is_walk (status (Lifecycle.init ref init)) (map ev_status (history m)) = true
    /\ last (map ev_status (history m)) (status (Lifecycle.init ref init)) = status m.
Proof. apply run_walk; reflexivity. Qed.

Lemma mandatory_terminal t : is_mandatory t = true -> t <> DEPOSEE -> targets_of t = [].
Proof. destruct t; simpl; intros H1 H2; try reflexivity; try discriminate; congruence. Qed.

Lemma run_mandatory cs : forall m,
    (mandatory_events m = []
     \/ (exists h e, history m = h ++ [e] /\ mandatory_events m = [e] /\ is_terminal m = true)) ->
    let mf := fst (run m cs) in
    mandatory_events mf = []
    \/ (exists h e, history mf = h ++ [e] /\ mandatory_events mf = [e] /\ is_terminal mf = true).
Proof.
  induction cs as [|c cs IH]; intros m Hm; simpl; [exact Hm|].
  unfold apply_call.
  destruct (transition_cases m (c_now c) (c_target c) (c_reason c) (c_reason_code c)
              (c_producer c) (c_amount c) (c_timestamp c))
    as [[e H] | [ev [H [Hst Hin]]]]; rewrite H.
  - destruct (run m cs) as [mf k] eqn:Hr; specialize (IH m Hm); rewrite Hr in IH; exact IH.
  - set (m' := mkManager (invoice_reference m) (c_target c) (history m ++ [ev])).
    destruct (run m' cs) as [mf k] eqn:Hr.
    specialize (IH m'); rewrite Hr in IH; apply IH.
    destruct Hm as [Hm | (h & e & Hh & He & Ht)].
    + unfold m', mandatory_events in *; simpl; rewrite filter_app, Hm; simpl.
      destruct (is_mandatory (ev_status ev)) eqn:Em; [right | left; reflexivity].
      exists (history m), ev; split; [reflexivity|]; split; [reflexivity|].
      apply is_terminal_iff; simpl; rewrite Hst in Em.
      apply mandatory_terminal; [exact Em|].
      intros Heq; rewrite Heq in Hin; exact (deposee_no_incoming _ Hin).
    + exfalso; apply is_terminal_iff in Ht; rewrite Ht in Hin; exact Hin.
Qed.

  (** X4: after any sequence of calls on a fresh manager, the history holds no
      mandatory event, or exactly one, which is its last event, and the
      manager is then terminal. *)
Theorem mandatory_events_at_most_last ref init cs :
    let m := fst (run (Lifecycle.init ref init) cs) in
    mandatory_events m = []
    \/ (exists h e, history m = h ++ [e] /\ mandatory_events m = [e] /\ is_terminal m = true).
Proof. apply run_mandatory; left; reflexivity. Qed.

  (** X5: for no amount or a finite amount, a transition returns an event
      exactly when the target is allowed and, for REFUSEE only, a non-empty
      reason is given; the missing-reason error is returned exactly for an
      allowed REFUSEE without a reason. *)
Theorem only_refused_needs_reason m now t r rc p a ts :
    ((exists ev, fst (transition m now t r rc p a ts) = inr ev)
       <-> can_transition m t = true /\ (t = REFUSEE -> str_missing r = false))
    /\ (fst (transition m now t r rc p a ts) = inl (MissingReason t)
       <-> can_transition m t = true /\ t = REFUSEE /\ str_missing r = true).
Proof.
  unfold transition; destruct (can_transition m t) eqn:Hc; cbn [negb].
  - assert (Hrf : t = REFUSEE \/ t <> REFUSEE) by (destruct t; auto; right; discriminate).
    destruct Hrf as [-> | Hne].
    + cbn -[str_missing]; destruct (str_missing r) eqn:Er; cbn [fst];
        (split; split; [intros Hx | intros Hx | intros Hx | intros Hx]).
      * destruct Hx as [ev Hf]; discriminate Hf.
      * destruct Hx as [_ Hf]; specialize (Hf eq_refl); discriminate Hf.
      * split; [first [exact Hc | reflexivity] | split; reflexivity].
      * reflexivity.
      * split; [first [exact Hc | reflexivity] | intros _; reflexivity].
      * eexists; reflexivity.
      * discriminate Hx.
      * destruct Hx as [_ [_ Hf]]; discriminate Hf.
    + assert (Hmd : exists md, assoc_get t STATUS_METADATA = Some md /\ reason_required md = false)
        by (destruct t; try congruence; eexists; split; reflexivity).
      destruct Hmd as [md [-> Hmd]]; rewrite Hmd; cbn [andb fst].
      split; split; [intros _ | intros _ | intros Hx | intros Hx].
      * split; [first [exact Hc | reflexivity] | intros Hf; congruence].
      * eexists; reflexivity.
      * discriminate Hx.
      * destruct Hx as [_ [Hf _]]; congruence.
  - cbn [fst]; split; split; [intros [ev Hev] | intros [Hf _] | intros Hev | intros [Hf _]];
      discriminate.
Qed.

  (** X6: the event returned by a transition carries the given timestamp (else
      the current time), the target, reason, reason code and amount as given,
      and the given producer or else the target's default producer. *)
Theorem event_producer_defaults m now t r rc p a ts ev :
    fst (transition m now t r rc p a ts) = inr ev ->
    exists md, assoc_get t STATUS_METADATA = Some md
      /\ ev = mkEvent (match ts with Some x => x | None => now end) t r rc
                 (Some (match p with Some x => x | None => default_producer md end)) a None.
Proof.
  unfold transition; destruct (can_transition m t); cbn [negb]; [|discriminate].
  assert (Hmd : exists md, assoc_get t STATUS_METADATA = Some md) by (destruct t; eexists; reflexivity).
  destruct Hmd as [md Hmd]; rewrite Hmd.
  destruct (reason_required md && str_missing r); cbn [fst]; [discriminate|].
  intros Hev; injection Hev as <-; exists md; split; [reflexivity|].
  destruct p; reflexivity.
Qed.


  (** X1: a manager is terminal exactly when no target status is allowed from
      its current status. *)
Theorem terminal_means_no_target m :
    is_terminal m = true <-> (forall t, can_transition m t = false).
Proof.
  rewrite is_terminal_iff; unfold can_transition; split.
  - intros H t; rewrite H; reflexivity.
  - destruct m as [ref s h]; simpl; intros H; destruct s; try reflexivity;
      [ specialize (H EMISE) | specialize (H RECUE) | specialize (H MISE_A_DISPOSITION)
      | specialize (H PRISE_EN_CHARGE) | specialize (H APPROUVEE) | specialize (H PAIEMENT_TRANSMIS)
      | specialize (H PAIEMENT_TRANSMIS) | specialize (H APPROUVEE) | specialize (H COMPLETEE)
      | specialize (H ENCAISSEE) | specialize (H PRISE_EN_CHARGE) ]; discriminate H.
Qed.

  (** Witnesses. *)
Lemma terminal_absorbing_witness :
    (forall now t r rc p a ts,
        transition (Lifecycle.init "FA-1" (Some REFUSEE)) now t r rc p a ts
        = (inl (InvalidTransition (status (Lifecycle.init "FA-1" (Some REFUSEE))) t []),
           Lifecycle.init "FA-1" (Some REFUSEE)))
    /\ (forall cs, run (Lifecycle.init "FA-1" (Some REFUSEE)) cs
                   = (Lifecycle.init "FA-1" (Some REFUSEE), O)).
Proof. apply terminal_absorbing; reflexivity. Defined.

Lemma event_producer_defaults_witness :
    exists ev,
      fst (transition (Lifecycle.init "FA-1" None) (Cal.mkdatetime (Cal.mkdate 2025 9 15) 0)
             EMISE None None None None None) = inr ev
      /\ exists md, assoc_get EMISE STATUS_METADATA = Some md
         /\ ev = mkEvent (Cal.mkdatetime (Cal.mkdate 2025 9 15) 0) EMISE None None
                   (Some (default_producer md)) None None.
Proof.
  eexists; split; [cbv; reflexivity|].
  apply (event_producer_defaults (Lifecycle.init "FA-1" None)
           (Cal.mkdatetime (Cal.mkdate 2025 9 15) 0) EMISE None None None None None).
  cbv; reflexivity.
Defined.

End LifecycleMore.

(** ** EReporter construction and transaction submissions (ereporting/reporter.py) *)

Module EReportingMore.
  Import Enums EReporting EReporterOps MoreViews CodecViews.
  Local Open Scope string_scope.

Lemma digits_prefix_spec n : forall s rest,
    digits_prefix n s = Some rest <->
    exists ds, String.length ds = n /\ all_chars DecStr.is_digit ds = true /\ s = ds ++ rest.
Proof.
  induction n as [|n IH]; intros s rest; simpl.
  - split; [intros H; injection H as <-; exists ""; split; [reflexivity | split; reflexivity]|].
    intros (ds & Hl & _ & ->); destruct ds; [reflexivity | discriminate].
  - destruct s as [|c s].
    + split; [discriminate|]; intros (ds & Hl & _ & H); destruct ds; [discriminate|]; discriminate.
    + destruct (DecStr.is_digit c) eqn:Hc.
      * rewrite IH; split.
        -- intros (ds & Hl & Ha & ->); exists (String c ds); simpl; rewrite Hl; split; [reflexivity|].
           unfold all_chars in *; simpl; rewrite Hc, Ha; split; reflexivity.
        -- intros (ds & Hl & Ha & Hs); destruct ds as [|d ds]; [discriminate|].
           simpl in Hs; injection Hs as -> ->; exists ds; simpl in Hl; split; [lia|].
           unfold all_chars in *; simpl in Ha; apply andb_true_iff in Ha; tauto.
      * split; [discriminate|]; intros (ds & Hl & Ha & Hs); destruct ds as [|d ds]; [discriminate|].
        simpl in Hs; injection Hs as -> _; unfold all_chars in Ha; simpl in Ha; rewrite Hc in Ha;
          discriminate.
Qed.

  (** X7: the EReporter constructor accepts a Latin-1 SIREN exactly when
      it is nine digits '0' to '9', possibly followed by one line feed (the
      [$] of [_SIREN_RE]). *)
Theorem new_reporter_siren siren v :
    new_reporter siren v <> None <->
    exists ds, String.length ds = 9%nat /\ all_chars DecStr.is_digit ds = true
               /\ (siren = ds \/ siren = ds ++ String (ascii_of_nat 10) "").
Proof.
  unfold new_reporter, siren_re_match.
  destruct (digits_prefix 9 siren) as [rest|] eqn:Hd.
  - apply digits_prefix_spec in Hd; destruct Hd as (ds & Hl & Ha & ->).
    split.
    + intros H; exists ds; split; [exact Hl | split; [exact Ha|]].
      destruct rest as [|c [|c' r]]; [left; rewrite DecStrFacts.append_empty; reflexivity | | congruence].
      destruct (Ascii.eqb c (ascii_of_nat 10)) eqn:Ec; [|congruence].
      apply Ascii.eqb_eq in Ec; subst c; right; reflexivity.
    + intros (ds' & Hl' & Ha' & Hs).
      assert (Hp : forall x y u w : string, String.length x = String.length y ->
                 x ++ u = y ++ w -> x = y /\ u = w).
      { induction x as [|a x IHx]; intros [|b y] u w Hxy Heq; try discriminate; [split; auto|].
        simpl in Heq; injection Heq as -> Heq; injection Hxy as Hxy.
        destruct (IHx y u w Hxy Heq) as [-> ->]; split; reflexivity. }
      destruct Hs as [Hs | Hs].
      * rewrite <- (DecStrFacts.append_empty ds') in Hs.
        destruct (Hp ds ds' rest "" ltac:(congruence) Hs) as [_ ->]; discriminate.
      * destruct (Hp ds ds' rest _ ltac:(congruence) Hs) as [_ ->]; simpl; discriminate.
  - split; [intros H; congruence|].
    intros (ds & Hl & Ha & Hs); exfalso.
    assert (H : exists rest, digits_prefix 9 siren = Some rest).
    { destruct Hs as [-> | ->]; [exists ""; apply digits_prefix_spec; exists ds;
        rewrite DecStrFacts.append_empty; auto|].
      eexists; apply digits_prefix_spec; exists ds; eauto. }
    destruct H as [r Hr]; congruence.
Qed.

Lemma app_nil_iff {A} (l1 l2 : list A) : (l1 ++ l2)%list = [] <-> l1 = [] /\ l2 = [].
Proof. split; [apply app_eq_nil | intros [-> ->]; reflexivity]. Qed.

Lemma and_iff_compat_both {A B C D : Prop} : (A <-> C) -> (B <-> D) -> (A /\ B <-> C /\ D).
Proof. tauto. Qed.

Lemma validate_transaction_nil r t :
    validate_transaction r t = []
    <-> t_seller_siren t = seller_siren r
        /\ (transaction_type t <> B2C_DOMESTIC ->
            exists c, country_code t = Some c /\ c <> "" /\ c <> "FR")
        /\ (t_vat_rate t <> None \/ t_vat_exemption t = true)
        /\ (invoice_date t <> None \/ t_period_start t <> None).
Proof.
  unfold validate_transaction; rewrite !app_nil_iff.
  apply and_iff_compat_both; [|apply and_iff_compat_both; [|apply and_iff_compat_both]].
  - destruct (String.eqb_spec (t_seller_siren t) (seller_siren r)); simpl;
      split; intros H; congruence.
  - assert (Hb : forall o : option string,
               (match o with
                | None => [CountryCodeRequired]
                | Some c => if String.eqb c "" then [CountryCodeRequired]
                            else if String.eqb c "FR" then [CountryCodeNotFR] else []
                end = [] <-> exists c, o = Some c /\ c <> "" /\ c <> "FR")).
    { intros [c|].
      - destruct (String.eqb_spec c "") as [->|H1].
        + split; [discriminate | intros (c' & Hc & Hne & _); injection Hc as <-; congruence].
        + destruct (String.eqb_spec c "FR") as [->|H2].
          * split; [discriminate | intros (c' & Hc & _ & Hne); injection Hc as <-; congruence].
          * split; [intros _; exists c; auto | reflexivity].
      - split; [discriminate | intros (c' & Hc & _); discriminate]. }
    destruct (transaction_type t).
    + split; [intros _ H; congruence | reflexivity].
    + rewrite Hb; split; [intros H _; exact H | intros H; apply H; discriminate].
    + rewrite Hb; split; [intros H _; exact H | intros H; apply H; discriminate].
  - destruct (t_vat_rate t); [split; [intros _; left; discriminate | reflexivity]|].
    destruct (t_vat_exemption t); split; intros H; auto; try discriminate.
    destruct H as [H|H]; [congruence | discriminate].
  - destruct (invoice_date t), (t_period_start t).
    + split; [intros _; left; discriminate | reflexivity].
    + split; [intros _; left; discriminate | reflexivity].
    + split; [intros _; right; discriminate | reflexivity].
    + split; [discriminate | intros [H|H]; congruence].
Qed.

  (** X8: [prepare_transaction] succeeds exactly when the seller SIREN
      matches, a B2B transaction has a country code other than empty and FR, a
      rate or an exemption is given and an invoice date or a period start is
      given; it then builds an individual submission, and otherwise raises
      with the whole non-empty list of validation messages. *)
Theorem prepare_transaction_spec r t sid now :
    ((exists s, prepare_transaction r t sid now = inr s)
     <-> t_seller_siren t = seller_siren r
         /\ (transaction_type t <> B2C_DOMESTIC ->
             exists c, country_code t = Some c /\ c <> "" /\ c <> "FR")
         /\ (t_vat_rate t <> None \/ t_vat_exemption t = true)
         /\ (invoice_date t <> None \/ t_period_start t <> None))
    /\ (forall s, prepare_transaction r t sid now = inr s ->
                  s = mkSubmission sid INDIVIDUAL (Some t) None None now)
    /\ (forall e, prepare_transaction r t sid now = inl e ->
                  e = Invalid (validate_transaction r t) /\ validate_transaction r t <> []).
Proof.
  rewrite <- validate_transaction_nil; unfold prepare_transaction.
  destruct (validate_transaction r t) as [|m ms]; split.
  - split; [intros _; reflexivity | intros _; eexists; reflexivity].
  - split; [intros s H; injection H as <-; reflexivity | intros e H; discriminate].
  - split; [intros [s H]; discriminate | discriminate].
  - split; [intros s H; discriminate | intros e H; injection H as <-; split; [reflexivity | discriminate]].
Qed.

End EReportingMore.

(** ** Aggregation (EReporter.aggregate_transactions) *)

Module AggregateMore.
  Import Enums EReporting EReporterOps MoreViews.

Lemma compare_antisym a b : Dec.compare b a = CompOpp (Dec.compare a b).
Proof. unfold Dec.compare; rewrite Z.min_comm; apply Z.compare_antisym. Qed.

Lemma compare_rescale a b e : e <= Dec.exp a -> e <= Dec.exp b ->
    Dec.compare a b = Z.compare (Dec.scaled a e) (Dec.scaled b e).
Proof.
  intros Ha Hb; unfold Dec.compare.
  set (m := Z.min (Dec.exp a) (Dec.exp b)).
  assert (Hm1 : m <= Dec.exp a) by apply Z.le_min_l.
  assert (Hm2 : m <= Dec.exp b) by apply Z.le_min_r.
  assert (Hem : e <= m) by (apply Z.min_glb; assumption).
  assert (Hs : forall x, m <= Dec.exp x -> Dec.scaled x e = Dec.scaled x m * 10 ^ (m - e)).
  { intros x Hx; unfold Dec.scaled; rewrite <- Z.mul_assoc, <- Z.pow_add_r by lia.
    f_equal; f_equal; lia. }
  rewrite (Hs a Hm1), (Hs b Hm2).
  apply Zmult_compare_compat_r.
  apply Z.lt_gt, Z.pow_pos_nonneg; lia.
Qed.

Lemma dec_eqb_sym a b : Dec.eqb a b = Dec.eqb b a.
Proof. unfold Dec.eqb; rewrite (compare_antisym a b); destruct (Dec.compare a b); reflexivity. Qed.

Lemma dec_eqb_refl a : Dec.eqb a a = true.
Proof. unfold Dec.eqb, Dec.compare; rewrite Z.compare_refl; reflexivity. Qed.

Lemma dec_eqb_iff a b e : e <= Dec.exp a -> e <= Dec.exp b ->
    Dec.eqb a b = true <-> Dec.scaled a e = Dec.scaled b e.
Proof.
  intros Ha Hb; unfold Dec.eqb; rewrite (compare_rescale a b e Ha Hb).
  rewrite <- Z.compare_eq_iff; destruct (Z.compare _ _); split; congruence.
Qed.

Lemma dec_eqb_trans a b c : Dec.eqb a b = true -> Dec.eqb b c = true -> Dec.eqb a c = true.
Proof.
  set (e := Z.min (Dec.exp a) (Z.min (Dec.exp b) (Dec.exp c))).
  assert (Ha : e <= Dec.exp a) by lia.
  assert (Hb : e <= Dec.exp b) by lia.
  assert (Hc : e <= Dec.exp c) by lia.
  rewrite !(dec_eqb_iff _ _ e) by assumption; congruence.
Qed.

Lemma key_eqb_sym k1 k2 : key_eqb k1 k2 = key_eqb k2 k1.
Proof.
  destruct k1 as [[a|] x], k2 as [[b|] y]; unfold key_eqb, opt_dec_eqb; simpl;
    try rewrite (dec_eqb_sym a b); destruct x, y; reflexivity.
Qed.

Lemma key_eqb_refl k : key_eqb k k = true.
Proof. destruct k as [[a|] x]; unfold key_eqb, opt_dec_eqb; simpl;
  try rewrite dec_eqb_refl; destruct x; reflexivity. Qed.

Lemma key_eqb_trans k1 k2 k3 : key_eqb k1 k2 = true -> key_eqb k2 k3 = true -> key_eqb k1 k3 = true.
Proof.
  destruct k1 as [[a|] x], k2 as [[b|] y], k3 as [[c|] z]; unfold key_eqb, opt_dec_eqb; simpl;
    rewrite ?andb_true_iff; try (intros [] []; discriminate); try (intros [H1 H2] [H3 H4]);
    try (intros [H1 H2]; discriminate); try (intros _ [H3 _]; discriminate);
    destruct x, y, z; simpl in *; try discriminate; split; try reflexivity;
    eapply dec_eqb_trans; eassumption.
Qed.

Lemma sums_step_none L : fold_left sums_step L None = None.
Proof. induction L as [|t L IH]; simpl; [reflexivity | exact IH]. Qed.

Lemma group_sums_snoc_new k L t :
    filter (fun t0 => key_eqb k (t_key t0)) L = [] -> key_eqb k (t_key t) = true ->
    group_sums k (L ++ [t]) = Some (t_total_excl_tax t, t_vat_amount t).
Proof. unfold group_sums; rewrite filter_app; simpl; intros -> ->; reflexivity. Qed.

Lemma group_sums_snoc_match k L t v :
    group_sums k L = Some v -> key_eqb k (t_key t) = true ->
    group_sums k (L ++ [t]) = sums_step (Some v) t.
Proof.
  unfold group_sums; rewrite filter_app; simpl; intros H ->.
  destruct (filter (fun t0 => key_eqb k (t_key t0)) L) as [|t1 rest]; [discriminate|].
  simpl; rewrite fold_left_app, H; reflexivity.
Qed.

Lemma group_sums_snoc_other k L t :
    key_eqb k (t_key t) = false -> group_sums k (L ++ [t]) = group_sums k L.
Proof. unfold group_sums; rewrite filter_app; simpl; intros ->; rewrite app_nil_r; reflexivity. Qed.

Lemma existsb_false_iff {A} (f : A -> bool) l : existsb f l = false <-> forall x, In x l -> f x = false.
Proof.
  induction l as [|a l IH]; simpl; [split; [intros _ x [] | reflexivity]|].
  rewrite orb_false_iff, IH; split.
  - intros [H1 H2] x [<- | Hx]; auto.
  - intros H; split; auto.
Qed.

Lemma filter_nil_all {A} (f : A -> bool) l : (forall x, In x l -> f x = false) -> filter f l = [].
Proof. induction l as [|a l IH]; simpl; intros H; [reflexivity|]; rewrite H by auto; apply IH; auto. Qed.

Lemma bd_nomatch k v d : existsb (key_eqb k) (map fst d) = false ->
    bd_get k d = None /\ bd_set k v d = d ++ [(k, v)].
Proof.
  induction d as [|[k0 v0] d IH]; simpl; [split; reflexivity|].
  rewrite orb_false_iff; intros [H0 H]; rewrite H0; destruct (IH H) as [-> ->]; split; reflexivity.
Qed.

Lemma bd_match k v d k' v' :
    keys_distinct (map fst d) = true -> In (k', v') d -> key_eqb k k' = true ->
    bd_get k d = Some v'
    /\ bd_set k v d = map (fun kv => if key_eqb k (fst kv) then (fst kv, v) else kv) d.
Proof.
  induction d as [|[k0 v0] d IH]; simpl; [intros _ []|].
  rewrite andb_true_iff, negb_true_iff; intros [Hn Hd] Hin Hk.
  assert (Hrest : forall k2 v2, In (k2, v2) d -> key_eqb k0 k2 = false).
  { intros k2 v2 H2; rewrite existsb_false_iff in Hn; apply Hn; apply in_map_iff;
      exists (k2, v2); auto. }
  destruct Hin as [Heq | Hin].
  - injection Heq as <- <-; rewrite Hk; split; [reflexivity|]; f_equal.
    rewrite <- (map_id d) at 1; apply map_ext_in; intros [k2 v2] H2; simpl.
    destruct (key_eqb k k2) eqn:E; [|reflexivity].
    exfalso; pose proof (Hrest k2 v2 H2) as F.
    rewrite key_eqb_sym in Hk; rewrite (key_eqb_trans _ _ _ Hk E) in F; discriminate.
  - destruct (key_eqb k k0) eqn:E0.
    + exfalso; pose proof (Hrest k' v' Hin) as F; rewrite key_eqb_sym in E0.
      rewrite (key_eqb_trans _ _ _ E0 Hk) in F; discriminate.
    + destruct (IH Hd Hin Hk) as [-> ->]; split; reflexivity.
Qed.

Lemma keys_distinct_snoc K k : keys_distinct K = true -> existsb (key_eqb k) K = false ->
    keys_distinct (K ++ [k]) = true.
Proof.
  induction K as [|x K IH]; simpl; [reflexivity|].
  rewrite !andb_true_iff, negb_true_iff, orb_false_iff; intros [Hx HK] [Hkx Hk].
  split; [|apply IH; assumption].
  rewrite negb_true_iff, existsb_app, orb_false_iff; split; [exact Hx|]; simpl.
  rewrite key_eqb_sym, Hkx; reflexivity.
Qed.

Lemma group_step_inv d d' L t :
    group_inv d L -> group_step d t = Some d' -> group_inv d' (L ++ [t]).
Proof.
  intros (Hd & Hs & Hc & Hl & Hn).
  unfold group_step; change (t_vat_rate t, t_vat_exemption t) with (t_key t).
  destruct (existsb (key_eqb (t_key t)) (map fst d)) eqn:Ex.
  - apply existsb_exists in Ex; destruct Ex as [k' [Hk' Hkk']].
    apply in_map_iff in Hk'; destruct Hk' as [[k1 [x y]] [Hk1 Hin]]; simpl in Hk1; subst k1.
    destruct (bd_match (t_key t) (x, y) d k' (x, y) Hd Hin Hkk') as [Hg1 _].
    rewrite Hg1.
    destruct (Dec.add x (t_total_excl_tax t)) as [x'|] eqn:Ax; [|discriminate].
    destruct (Dec.add y (t_vat_amount t)) as [y'|] eqn:Ay; [|discriminate].
    intros Hd'; injection Hd' as <-.
    destruct (bd_match (t_key t) (x', y') d k' (x, y) Hd Hin Hkk') as [_ Hs1].
    rewrite Hs1.
    set (upd := fun kv : key * (Dec.decimal * Dec.decimal) =>
                  if key_eqb (t_key t) (fst kv) then (fst kv, (x', y')) else kv).
    assert (Hf : map fst (map upd d) = map fst d).
    { rewrite map_map; apply map_ext; intros [k2 v2]; unfold upd; simpl;
        destruct (key_eqb (t_key t) k2); reflexivity. }
    unfold group_inv; rewrite Hf, length_map, length_app; simpl length; split; [exact Hd|]; split; [|split; [|split]].
    + intros k2 v2 H2; apply in_map_iff in H2; destruct H2 as [[k3 v3] [Hu H3]].
      unfold upd in Hu; simpl in Hu.
      destruct (key_eqb (t_key t) k3) eqn:E3.
      * injection Hu as <- <-.
        destruct (bd_match (t_key t) (x, y) d k3 v3 Hd H3 E3) as [Hg _].
        rewrite Hg1 in Hg; injection Hg as <-.
        rewrite (group_sums_snoc_match k3 L t (x, y) (Hs k3 (x, y) H3))
          by (rewrite key_eqb_sym; exact E3).
        simpl; rewrite Ax, Ay; reflexivity.
      * injection Hu as <- <-.
        rewrite group_sums_snoc_other by (rewrite key_eqb_sym; exact E3).
        exact (Hs k3 v3 H3).
    + intros p Hp; apply in_app_or in Hp; destruct Hp as [Hp | [<- | []]]; [exact (Hc p Hp)|].
      apply existsb_exists; exists k'; split; [apply in_map_iff; exists (k', (x, y)); auto | exact Hkk'].
    + lia.
    + intros _; destruct d; [destruct Hin | discriminate].
  - destruct (bd_nomatch (t_key t) (t_total_excl_tax t, t_vat_amount t) d Ex) as [-> ->].
    intros Hd'; injection Hd' as <-.
    unfold group_inv; rewrite map_app, !length_app; simpl; split; [|split; [|split; [|split]]].
    + apply keys_distinct_snoc; assumption.
    + intros k2 v2 H2; apply in_app_or in H2.
      destruct H2 as [H2 | [Heq | []]].
      * rewrite existsb_false_iff in Ex.
        assert (E2 : key_eqb (t_key t) k2 = false)
          by (apply Ex, in_map_iff; exists (k2, v2); auto).
        rewrite group_sums_snoc_other by (rewrite key_eqb_sym; exact E2).
        exact (Hs k2 v2 H2).
      * injection Heq as <- <-.
        apply group_sums_snoc_new; [|apply key_eqb_refl].
        apply filter_nil_all.
        intros p Hp; destruct (key_eqb (t_key t) (t_key p)) eqn:E; [|reflexivity].
        exfalso; pose proof (Hc p Hp) as Hcp; apply existsb_exists in Hcp.
        destruct Hcp as [k3 [Hk3 E3]].
        rewrite existsb_false_iff in Ex; pose proof (Ex k3 Hk3) as F.
        rewrite (key_eqb_trans _ _ _ E E3) in F; discriminate.
    + intros p Hp; rewrite existsb_app; apply orb_true_iff.
      apply in_app_or in Hp; destruct Hp as [Hp | [<- | []]]; [left; exact (Hc p Hp)|].
      right; simpl; rewrite key_eqb_refl; reflexivity.
    + lia.
    + intros _ Hnil; destruct d; discriminate.
Qed.

Lemma group_fold_none txns :
    fold_left (fun acc t => match acc with Some d => group_step d t | None => None end)
      txns None = None.
Proof. induction txns as [|t txns IH]; simpl; [reflexivity | exact IH]. Qed.

Lemma group_fold_inv txns d d' L :
    group_inv d L ->
    fold_left (fun acc t => match acc with Some d => group_step d t | None => None end)
      txns (Some d) = Some d' ->
    group_inv d' (L ++ txns).
Proof.
  revert d L; induction txns as [|t txns IH]; intros d L H; simpl.
  - intros E; injection E as <-; rewrite app_nil_r; exact H.
  - replace (L ++ t :: txns) with ((L ++ [t]) ++ txns) by (rewrite <- app_assoc; reflexivity).
    destruct (group_step d t) as [d1|] eqn:E1.
    + intros E; apply (IH d1); [apply (group_step_inv d d1 L t H E1) | exact E].
    + rewrite group_fold_none; discriminate.
Qed.

Lemma group_inv_group txns d : group txns = Some d -> group_inv d txns.
Proof.
  apply (group_fold_inv txns [] d []).
  unfold group_inv; simpl; repeat split; try (intros; contradiction); try lia.
Qed.

Lemma insert_sorted_perm {A} (kf : A -> Dec.decimal * bool) x l :
    Permutation (insert_sorted kf x l) (x :: l).
Proof.
  induction l as [|y l IH]; simpl; [reflexivity|].
  destruct (sort_key_ltb (kf x) (kf y)); [reflexivity|].
  eapply perm_trans; [apply perm_skip, IH | apply perm_swap].
Qed.

Lemma sorted_by_key_perm {A} (kf : A -> Dec.decimal * bool) l :
    Permutation (sorted_by_key kf l) l.
Proof.
  unfold sorted_by_key.
  enough (G : forall acc, Permutation (fold_left (fun acc x => insert_sorted kf x acc) l acc) (l ++ acc))
    by (rewrite <- (app_nil_r l) at 2; apply G).
  induction l as [|x l IH]; intros acc; simpl; [reflexivity|].
  eapply perm_trans; [apply IH|].
  eapply perm_trans; [apply Permutation_app_head, insert_sorted_perm|].
  apply Permutation_sym, Permutation_middle.
Qed.

Lemma existsb_perm {A} (f : A -> bool) l l' : Permutation l l' -> existsb f l = existsb f l'.
Proof.
  induction 1; simpl; try congruence.
  destruct (f x), (f y); reflexivity.
Qed.

Lemma keys_distinct_perm l l' : Permutation l l' -> keys_distinct l = keys_distinct l'.
Proof.
  induction 1; simpl.
  - reflexivity.
  - rewrite (existsb_perm _ _ _ H), IHPermutation; reflexivity.
  - rewrite (key_eqb_sym y x).
    destruct (key_eqb x y), (existsb (key_eqb x) l), (existsb (key_eqb y) l), (keys_distinct l);
      reflexivity.
  - congruence.
Qed.

Lemma sort_key_ltb_asym a b : sort_key_ltb a b = true -> sort_key_ltb b a = false.
Proof.
  destruct a as [a1 a2], b as [b1 b2]; unfold sort_key_ltb, Dec.ltb, Dec.eqb; simpl.
  rewrite (compare_antisym a1 b1).
  destruct (Dec.compare a1 b1), a2, b2; simpl; intros H; try reflexivity; discriminate.
Qed.

Lemma insert_sorted_keys_sorted {A} (kf : A -> Dec.decimal * bool) x l :
    keys_sorted (map kf l) = true -> keys_sorted (map kf (insert_sorted kf x l)) = true.
Proof.
  induction l as [|y l IH]; intros H; [reflexivity|].
  cbn [insert_sorted].
  destruct (sort_key_ltb (kf x) (kf y)) eqn:E.
  - change (negb (sort_key_ltb (kf y) (kf x)) && keys_sorted (map kf (y :: l)) = true).
    rewrite (sort_key_ltb_asym _ _ E), H; reflexivity.
  - destruct l as [|z l].
    + cbn; rewrite E; reflexivity.
    + change (negb (sort_key_ltb (kf z) (kf y)) && keys_sorted (map kf (z :: l)) = true) in H.
      apply andb_true_iff in H; destruct H as [Hzy H].
      specialize (IH H); cbn [insert_sorted] in IH |- *.
      destruct (sort_key_ltb (kf x) (kf z)) eqn:E2.
      * change (negb (sort_key_ltb (kf x) (kf y))
                && keys_sorted (map kf (x :: z :: l)) = true).
        rewrite E, IH; reflexivity.
      * change (negb (sort_key_ltb (kf z) (kf y))
                && keys_sorted (map kf (z :: insert_sorted kf x l)) = true).
        rewrite Hzy, IH; reflexivity.
Qed.

Lemma sorted_by_key_sorted {A} (kf : A -> Dec.decimal * bool) l :
    keys_sorted (map kf (sorted_by_key kf l)) = true.
Proof.
  unfold sorted_by_key.
  enough (G : forall acc, keys_sorted (map kf acc) = true ->
              keys_sorted (map kf (fold_left (fun acc x => insert_sorted kf x acc) l acc)) = true)
    by (apply G; reflexivity).
  induction l as [|x l IH]; intros acc H; simpl; [exact H|].
  apply IH, insert_sorted_keys_sorted, H.
Qed.

Lemma siren_set_in txns t : In t txns -> In (t_seller_siren t) (siren_set txns).
Proof.
  unfold siren_set.
  set (f := fun acc (t : TransactionData) =>
              if existsb (String.eqb (t_seller_siren t)) acc then acc else acc ++ [t_seller_siren t]).
  assert (Hf : forall acc t s, In s acc -> In s (f acc t)).
  { intros acc t' s Hs; unfold f; destruct (existsb _ _); [exact Hs | apply in_or_app; left; exact Hs]. }
  assert (Hf2 : forall acc t, In (t_seller_siren t) (f acc t)).
  { intros acc t'; unfold f; destruct (existsb _ _) eqn:E.
    - apply existsb_exists in E; destruct E as [s [Hs Es]]; apply String.eqb_eq in Es; subst; exact Hs.
    - apply in_or_app; right; left; reflexivity. }
  assert (G : forall l acc, (forall s, In s acc -> In s (fold_left f l acc))
                            /\ (forall t, In t l -> In (t_seller_siren t) (fold_left f l acc))).
  { induction l as [|x l IH]; intros acc; simpl; split.
    - auto.
    - intros _ [].
    - intros s Hs; apply (proj1 (IH _)), Hf, Hs.
    - intros t' [<- | Ht]; [apply (proj1 (IH _)), Hf2 | apply (proj2 (IH _)), Ht]. }
  apply (proj2 (G txns [])).
Qed.

Lemma aggregate_groups_core r txns ps pe agg :
    aggregate_transactions r txns ps pe = inr agg ->
    tax_breakdowns agg <> []
    /\ (length (tax_breakdowns agg) <= length txns)%nat
    /\ keys_distinct (map tb_key (tax_breakdowns agg)) = true
    /\ (forall t, In t txns -> exists tb, In tb (tax_breakdowns agg) /\ key_eqb (t_key t) (tb_key tb) = true)
    /\ (forall tb, In tb (tax_breakdowns agg) ->
          group_sums (tb_key tb) txns = Some (tb_taxable_amount tb, tb_vat_amount tb))
    /\ (forall t, In t txns -> t_seller_siren t = a_seller_siren agg).
Proof.
  unfold aggregate_transactions; destruct txns as [|t0 rest] eqn:Et; [discriminate|].
  rewrite <- Et.
  destruct (1 <? Z.of_nat (length (siren_set txns))) eqn:Hs; [discriminate|].
  destruct (group txns) as [G|] eqn:EG; [|discriminate].
  intros H; injection H as <-; cbn [tax_breakdowns a_seller_siren].
  pose proof (group_inv_group txns G EG) as (Hd & Hsum & Hc & Hl & Hn).
  set (items := sorted_by_key (fun kv => sort_key (fst kv)) G).
  pose proof (sorted_by_key_perm (fun kv => sort_key (fst kv)) G) as HP; fold items in HP.
  change (map (fun kv => mkTaxBreakdown (fst (fst kv)) (snd (fst kv)) (fst (snd kv)) (snd (snd kv))) items)
    with (map tb_of items).
  assert (Hk : map tb_key (map tb_of items) = map fst items).
  { rewrite map_map; apply map_ext; intros [[a b] v]; reflexivity. }
  split; [|split; [|split; [|split; [|split]]]].
  - intros Hnil; apply map_eq_nil in Hnil.
    apply Hn; [subst txns; discriminate|].
    apply Permutation_nil; rewrite <- Hnil; exact HP.
  - rewrite length_map, (Permutation_length HP); exact Hl.
  - rewrite Hk, (keys_distinct_perm _ _ (Permutation_map fst HP)); exact Hd.
  - intros t Ht; apply Hc, existsb_exists in Ht; destruct Ht as [k [Hk1 Ek]].
    apply in_map_iff in Hk1; destruct Hk1 as [[k' v] [Ek' Hin]]; simpl in Ek'; subst k'.
    exists (tb_of (k, v)); split.
    + apply in_map, (Permutation_in _ (Permutation_sym HP)), Hin.
    + destruct k; exact Ek.
  - intros tb Htb; apply in_map_iff in Htb; destruct Htb as [[[a b] [x y]] [<- Hin]].
    apply (Permutation_in _ HP) in Hin; exact (Hsum _ _ Hin).
  - assert (H0 : In (t_seller_siren t0) (siren_set txns))
      by (apply siren_set_in; subst txns; left; reflexivity).
    apply Z.ltb_ge in Hs.
    intros t Ht; pose proof (siren_set_in txns t Ht) as H1.
    destruct (siren_set txns) as [|s0 [|s1 l]]; simpl in *; [contradiction | | lia].
    destruct H0 as [<- | []], H1 as [<- | []]; reflexivity.
Qed.

  (** X10: the breakdowns of a successful aggregation are in non-decreasing
      order of the sort key [(rate or -1, exemption)]. *)
Theorem aggregate_sorted r txns ps pe agg :
    aggregate_transactions r txns ps pe = inr agg ->
    keys_sorted (map (fun tb => sort_key (tb_key tb)) (tax_breakdowns agg)) = true.
Proof.
  unfold aggregate_transactions; destruct txns as [|t0 rest]; [discriminate|].
  destruct (1 <? _); [discriminate|].
  destruct (group _); [|discriminate].
  intros H; injection H as <-; cbn [tax_breakdowns].
  rewrite map_map.
  erewrite map_ext; [apply sorted_by_key_sorted|].
  intros [[a b] v]; reflexivity.
Qed.

  (** X9: a successful aggregation has at least one and at most as many
      breakdowns as transactions, with pairwise distinct (rate, exemption)
      keys; each transaction's key is one of them, each breakdown's amounts
      are the Decimal running sums (default context: 28 digits, rounding,
      exponent clamping) of the taxable amount and VAT of the transactions
      with its key, in list order, and every transaction has the aggregate's
      seller SIREN. *)
Theorem aggregate_groups r txns ps pe agg :
    aggregate_transactions r txns ps pe = inr agg ->
    tax_breakdowns agg <> []
    /\ (length (tax_breakdowns agg) <= length txns)%nat
    /\ keys_distinct (map tb_key (tax_breakdowns agg)) = true
    /\ (forall t, In t txns -> exists tb, In tb (tax_breakdowns agg) /\ key_eqb (t_key t) (tb_key tb) = true)
    /\ (forall tb, In tb (tax_breakdowns agg) ->
          group_sums (tb_key tb) txns = Some (tb_taxable_amount tb, tb_vat_amount tb))
    /\ (forall t, In t txns -> t_seller_siren t = a_seller_siren agg).
Proof. exact (aggregate_groups_core r txns ps pe agg). Qed.

Lemma validate_aggregated_cases r agg :
    match validate_aggregated r agg with
    | inl e => e = EReportingEmptyDeclarationError \/ e = DecimalOverflow
    | inr errs => errs = if String.eqb (a_seller_siren agg) (seller_siren r) then []
                         else [SirenMismatchAggregate (a_seller_siren agg) (seller_siren r)]
    end.
Proof.
  unfold validate_aggregated.
  destruct (total_excl_tax agg) as [te|]; [|right; reflexivity].
  destruct (Dec.eqb te (Dec.of_Z 0)).
  - destruct (total_vat agg) as [tv|]; [|right; reflexivity].
    destruct (Dec.eqb tv (Dec.of_Z 0)); [left; reflexivity|].
    destruct (String.eqb _ _); reflexivity.
  - destruct (String.eqb _ _); reflexivity.
Qed.

  (** X11: preparing a successfully aggregated declaration either raises the
      empty-declaration error or [decimal.Overflow] (from summing its
      totals), or raises a single SIREN-mismatch message when no
      transaction has the reporter's SIREN, or returns an aggregated
      submission when all of them have it. *)
Theorem aggregate_then_prepare r txns ps pe agg sid now :
    aggregate_transactions r txns ps pe = inr agg ->
    match prepare_aggregated r agg sid now with
    | inr s => s = mkSubmission sid AGGREGATED None (Some agg) None now
               /\ Forall (fun t => t_seller_siren t = seller_siren r) txns
    | inl (Propagated e) => e = EReportingEmptyDeclarationError \/ e = DecimalOverflow
    | inl (Invalid errs) => errs = [SirenMismatchAggregate (a_seller_siren agg) (seller_siren r)]
                            /\ Forall (fun t => t_seller_siren t <> seller_siren r) txns
    end.
Proof.
  intros H; destruct (aggregate_groups_core r txns ps pe agg H) as (_ & _ & _ & _ & _ & Hs).
  pose proof (validate_aggregated_cases r agg) as HV.
  unfold prepare_aggregated.
  destruct (validate_aggregated r agg) as [e|errs]; [exact HV|]; subst errs.
  destruct (String.eqb (a_seller_siren agg) (seller_siren r)) eqn:E; simpl.
  - apply String.eqb_eq in E; split; [reflexivity|].
    apply Forall_forall; intros t Ht; rewrite (Hs t Ht); exact E.
  - apply String.eqb_neq in E; split; [reflexivity|].
    apply Forall_forall; intros t Ht; rewrite (Hs t Ht); exact E.
Qed.

Lemma aggregate_groups_witness :
    tax_breakdowns Samples.agg_sample <> []
    /\ (length (tax_breakdowns Samples.agg_sample) <= length [Samples.tx_goods; Samples.tx_services; Samples.tx_exempt])%nat
    /\ keys_distinct (map tb_key (tax_breakdowns Samples.agg_sample)) = true
    /\ (forall t, In t [Samples.tx_goods; Samples.tx_services; Samples.tx_exempt] -> exists tb, In tb (tax_breakdowns Samples.agg_sample) /\ key_eqb (t_key t) (tb_key tb) = true)
    /\ (forall tb, In tb (tax_breakdowns Samples.agg_sample) ->
          group_sums (tb_key tb) [Samples.tx_goods; Samples.tx_services; Samples.tx_exempt] = Some (tb_taxable_amount tb, tb_vat_amount tb))
    /\ (forall t, In t [Samples.tx_goods; Samples.tx_services; Samples.tx_exempt] -> t_seller_siren t = a_seller_siren Samples.agg_sample).
Proof.
  apply (aggregate_groups Samples.reporter_monthly _ Samples.day0 Samples.day1 Samples.agg_sample).
  vm_compute; reflexivity.
Defined.

Lemma aggregate_sorted_witness :
    keys_sorted (map (fun tb => sort_key (tb_key tb)) (tax_breakdowns Samples.agg_sample)) = true.
Proof.
  apply (aggregate_sorted Samples.reporter_monthly
           [Samples.tx_goods; Samples.tx_services; Samples.tx_exempt] Samples.day0 Samples.day1).
  vm_compute; reflexivity.
Defined.

Lemma aggregate_then_prepare_witness :
    match prepare_aggregated Samples.reporter_monthly Samples.agg_sample "SUB-1"
            (Cal.mkdatetime Samples.day1 0) with
    | inr s => s = mkSubmission "SUB-1" AGGREGATED None (Some Samples.agg_sample) None
                     (Cal.mkdatetime Samples.day1 0)
               /\ Forall (fun t => t_seller_siren t = seller_siren Samples.reporter_monthly)
                    [Samples.tx_goods; Samples.tx_services; Samples.tx_exempt]
    | inl (Propagated e) => e = EReportingEmptyDeclarationError \/ e = DecimalOverflow
    | inl (Invalid errs) =>
        errs = [SirenMismatchAggregate (a_seller_siren Samples.agg_sample)
                  (seller_siren Samples.reporter_monthly)]
        /\ Forall (fun t => t_seller_siren t <> seller_siren Samples.reporter_monthly)
             [Samples.tx_goods; Samples.tx_services; Samples.tx_exempt]
    end.
Proof.
  apply (aggregate_then_prepare Samples.reporter_monthly
           [Samples.tx_goods; Samples.tx_services; Samples.tx_exempt] Samples.day0 Samples.day1).
  vm_compute; reflexivity.
Defined.

End AggregateMore.

(** ** Deadlines and transmission schedule *)

Module DeadlineMore.
  Import Enums EReporting EReporterOps DeadlineFacts.
  Local Open Scope Z_scope.

  (** X12: from a valid date, [_last_day_of_next_month] fails only in December
      9999; otherwise it returns a valid date after the reference date, on the
      last day of the month that follows the reference month. *)
Theorem last_day_of_next_month_spec d :
    Cal.valid_date d = true ->
    match last_day_of_next_month d with
    | None => Cal.year d = 9999 /\ Cal.month d = 12
    | Some nd =>
        Cal.valid_date nd = true /\ Cal.date_ltb d nd = true
        /\ Cal.day nd = Cal.days_in_month (Cal.year nd) (Cal.month nd)
        /\ Cal.year nd * 12 + Cal.month nd = Cal.year d * 12 + Cal.month d + 1
    end.
Proof.
  destruct d as [y m dd]; intros Hv.
  apply valid_date_iff in Hv; simpl in Hv; destruct Hv as (Hy & Hm & Hd).
  unfold last_day_of_next_month; cbn [Cal.year Cal.month].
  destruct (m =? 12)%Z eqn:E12.
  - apply Z.eqb_eq in E12; subst m.
    destruct (Z.eq_dec y 9999) as [->|Hne].
    + vm_compute; split; reflexivity.
    + pose proof (days_in_month_range (y + 1) 1).
      rewrite (mk_date_some (y + 1) 1 _)%Z by lia; cbn [Cal.year Cal.month Cal.day].
      split; [apply valid_date_iff; simpl; lia|]; split; [|split; [reflexivity | lia]].
      unfold Cal.date_ltb; simpl; apply orb_true_iff; left; apply Z.ltb_lt; lia.
  - apply Z.eqb_neq in E12.
    pose proof (days_in_month_range y (m + 1)).
    rewrite (mk_date_some y (m + 1) _) by lia; cbn [Cal.year Cal.month Cal.day].
    split; [apply valid_date_iff; simpl; lia|]; split; [|split; [reflexivity | lia]].
    unfold Cal.date_ltb; simpl; rewrite Z.ltb_irrefl, Z.eqb_refl; simpl.
    apply orb_true_iff; left; apply Z.ltb_lt; lia.
Qed.

Lemma last_day_of_next_month_spec_witness :
    match last_day_of_next_month (Cal.mkdate 2024 1 31) with
    | None => Cal.year (Cal.mkdate 2024 1 31) = 9999 /\ Cal.month (Cal.mkdate 2024 1 31) = 12
    | Some nd =>
        Cal.valid_date nd = true /\ Cal.date_ltb (Cal.mkdate 2024 1 31) nd = true
        /\ Cal.day nd = Cal.days_in_month (Cal.year nd) (Cal.month nd)
        /\ Cal.year nd * 12 + Cal.month nd
           = Cal.year (Cal.mkdate 2024 1 31) * 12 + Cal.month (Cal.mkdate 2024 1 31) + 1
    end.
Proof. apply (last_day_of_next_month_spec (Cal.mkdate 2024 1 31)); reflexivity. Defined.

  (** X13: the schedule's frequencies agree with the deadline functions: no
      payment frequency exactly when no payment deadline is due; a monthly
      frequency uses the last day of the next month; a ten-day transaction
      frequency uses the decadal deadline. *)
Theorem schedule_matches_deadlines r d :
    (payment_frequency (get_transmission_schedule r) = None
       <-> next_payment_deadline r d = Some None)
    /\ (payment_frequency (get_transmission_schedule r) = Some "mensuel"%string
        -> next_payment_deadline r d = option_map Some (last_day_of_next_month d))
    /\ (transaction_frequency (get_transmission_schedule r) = "mensuel"%string
        -> next_transaction_deadline r d = last_day_of_next_month d)
    /\ (transaction_frequency (get_transmission_schedule r) = "tous les 10 jours"%string
        -> next_transaction_deadline r d = next_decadal_deadline d).
Proof.
  destruct r as [s v]; destruct v; cbn;
    (split; [|split; [|split]]); intros; try discriminate; try reflexivity;
    (split; [discriminate | destruct (last_day_of_next_month d); discriminate])
    || (split; reflexivity).
Qed.

End DeadlineMore.

(** ** The CDAR codec beyond the well-formed messages *)

Module CDARMore.
  Import Enums CDAR CodecViews MoreViews CDARFacts.
  Local Open Scope string_scope.

Lemma checked_none s : xml_compatible s = false -> checked s = None.
Proof. unfold checked; intros ->; reflexivity. Qed.

Lemma build_party_none tag p : party_ok p = false -> build_party tag p = None.
Proof.
  unfold party_ok, build_party; intros H; apply andb_false_iff in H.
  destruct H as [H | H].
  - rewrite (checked_none _ H); reflexivity.
  - unfold checked at 1; destruct (xml_compatible (scheme_id p)); [|reflexivity].
    cbn; rewrite (checked_none _ H); reflexivity.
Qed.

Lemma map_option_build_none tag l : forallb party_ok l = false ->
    map_option (build_party tag) l = None.
Proof.
  induction l as [|p l IH]; simpl; [discriminate|].
  intros H; apply andb_false_iff in H; destruct H as [H | H].
  - rewrite (build_party_none _ _ H); reflexivity.
  - destruct (party_ok p) eqn:Ep; [|rewrite (build_party_none _ _ Ep); reflexivity].
    rewrite (build_party_ok _ _ Ep), (IH H); reflexivity.
Qed.

Lemma opt_leaf_text tag s : text_ok s = true ->
    opt_leaf (truthy s) tag s
    = Some (match s with Some (String c r) => [Elem tag [] (Some (String c r)) []] | _ => [] end).
Proof.
  destruct s as [[|c r]|]; simpl; intros H; try reflexivity.
  rewrite (checked_ok _ H); reflexivity.
Qed.

Lemma opt_leaf_text_none tag s : text_ok s = false -> opt_leaf (truthy s) tag s = None.
Proof.
  destruct s as [[|c r]|]; simpl; intros H; try discriminate.
  unfold checked; rewrite H; reflexivity.
Qed.

Lemma generate_xml_none_core m : generate_xml m = None <-> strings_ok m = false.
Proof.
  destruct m as [mid idt sc iref snd rcps rs rsc am].
  unfold strings_ok, generate_xml, build_exchanged_document, build_acknowledgement_document.
  cbn [message_id issue_datetime status_code invoice_reference sender recipients reason
    reason_code amount].
  destruct (xml_compatible mid) eqn:E1;
    [rewrite (checked_ok _ E1) | rewrite (checked_none _ E1); split; reflexivity]; cbn.
  destruct (party_ok snd) eqn:E2;
    [rewrite (build_party_ok _ _ E2) | rewrite (build_party_none _ _ E2); split; reflexivity]; cbn.
  destruct (forallb party_ok rcps) eqn:E3;
    [rewrite (map_option_build _ _ E3) | rewrite (map_option_build_none _ _ E3); split; reflexivity]; cbn.
  destruct (text_ok rs) eqn:E4;
    [rewrite (opt_leaf_text _ _ E4) | rewrite (opt_leaf_text_none _ _ E4); split; reflexivity]; cbn.
  destruct (text_ok rsc) eqn:E5;
    [rewrite (opt_leaf_text _ _ E5) | rewrite (opt_leaf_text_none _ _ E5); split; reflexivity]; cbn.
  destruct (xml_compatible iref) eqn:E6;
    [rewrite (checked_ok _ E6) | rewrite (checked_none _ E6); split; reflexivity]; cbn.
  split; discriminate.
Qed.

Lemma roundtrip_core m :
    strings_ok m = true ->
    Cal.valid_date (Cal.dt_date (issue_datetime m)) = true ->
    1000 <= Cal.year (Cal.dt_date (issue_datetime m)) ->
    roundtrip m = if String.eqb (message_id m) "" || String.eqb (invoice_reference m) ""
                  then None else Some (normalize m).
Proof.
  destruct m as [mid idt sc iref snd rcps rs rsc am].
  unfold strings_ok, normalize; cbn [message_id issue_datetime
    status_code invoice_reference sender recipients reason reason_code amount].
  rewrite !andb_true_iff; intros (((((Hmidc & Hsnd) & Hrcps) & Hrs) & Hrsc) & Hrefc) Hdate Hyear.
  unfold roundtrip, generate_xml, build_exchanged_document, build_acknowledgement_document.
  cbn [message_id issue_datetime status_code invoice_reference sender recipients reason
    reason_code amount].
  rewrite (checked_ok _ Hmidc), (build_party_ok _ _ Hsnd), (map_option_build _ _ Hrcps),
    (opt_leaf_text _ _ Hrs), (opt_leaf_text _ _ Hrsc), (checked_ok _ Hrefc).
  cbv beta iota.
  remember (map (party_node "ram:RecipientTradeParty") rcps) as R eqn:HR.
  destruct (sender_shape 2 "ram:SenderTradeParty" snd) as (sa & sx & sch & Hs1 & Hs2).
  destruct (nonempty_shape _ (status_value_nonempty sc)) as (c3 & r3 & E3); rewrite E3.
  destruct (nonempty_shape _ (strftime_nonempty idt)) as (c4 & r4 & E4); rewrite E4.
  destruct mid as [|c1 r1]; destruct iref as [|c2 r2].
  all: destruct rs as [[|c5 r5]|]; destruct rsc as [[|c6 r6]|].
  all: destruct am as [a|];
    [ destruct (nonempty_shape _ (to_string_nonempty a)) as (c7 & r7 & E7); rewrite E7 | ].
  all: cbn [reparse map app]; rewrite Hs1.
  all: unfold parse; cbn -[parse_party status_of_value strptime_ymd DecStr.of_string].
  all: try reflexivity.
  all: rewrite <- E3, status_of_value_value, <- E4, (strptime_strftime idt Hdate Hyear), Hs2;
    subst R; rewrite filter_parties, String.eqb_refl, map_option_parse_parties.
  all: try (rewrite <- E7, DecStrFacts.of_string_to_string); reflexivity.
Qed.

  (** X14: on Latin-1 texts, the generator raises exactly when one of the
      strings it writes (message id, parties' identifiers and scheme ids,
      non-empty reason and reason code, invoice reference) holds a control
      character other than tab, newline and carriage return, which lxml
      refuses. *)
Theorem generate_xml_fails m : generate_xml m = None <-> strings_ok m = false.
Proof. exact (generate_xml_none_core m). Qed.


  (** X16: a message read back from the generated XML is read back unchanged
      when generated and parsed once more. *)
Theorem roundtrip_idempotent m m' :
    Cal.valid_date (Cal.dt_date (issue_datetime m)) = true ->
    1000 <= Cal.year (Cal.dt_date (issue_datetime m)) ->
    roundtrip m = Some m' -> roundtrip m' = Some m'.
Proof.
  intros Hd Hy H.
  assert (Hok : strings_ok m = true).
  { destruct (strings_ok m) eqn:E; [reflexivity|].
    apply generate_xml_none_core in E; unfold roundtrip in H; rewrite E in H; discriminate. }
  rewrite (roundtrip_core m Hok Hd Hy) in H.
  destruct (String.eqb (message_id m) "" || String.eqb (invoice_reference m) "") eqn:Eb;
    [discriminate|]; injection H as <-.
  assert (Htext : forall s, text_ok s = true -> text_ok (norm_text s) = true)
    by (intros [[|c r]|]; simpl; auto).
  assert (Hnorm : forall s, norm_text (norm_text s) = norm_text s)
    by (intros [[|c r]|]; reflexivity).
  rewrite roundtrip_core.
  - destruct m as [mid idt sc iref snd rcps rs rsc am]; unfold normalize in *; cbn in Eb |- *.
    rewrite Eb, !Hnorm; reflexivity.
  - destruct m as [mid idt sc iref snd rcps rs rsc am]; unfold strings_ok, normalize in *;
      cbn in Hok |- *.
    rewrite !andb_true_iff in Hok |- *.
    destruct Hok as (((((H1 & H2) & H3) & H4) & H5) & H6); auto 10.
  - destruct m; exact Hd.
  - destruct m; exact Hy.
Qed.


Lemma roundtrip_idempotent_witness :
    roundtrip (normalize CDARSamples.msg_empty_reason)
    = Some (normalize CDARSamples.msg_empty_reason).
Proof.
  apply (roundtrip_idempotent CDARSamples.msg_empty_reason);
    [reflexivity | cbn; lia | vm_compute; reflexivity].
Defined.

End CDARMore.
